(** * Stress Monitor: frame reassembly, decoding and aggregation

    A shallow embedding of [stress_monitor.py]: the module-level helpers
    [denoise_signal] and [categorize_stress_5], the byte-stream side of
    [BLEWorker] ([notification_handler], [process_long_packet]) and the data
    side of [MyApp] ([init_data_buffers], [handle_new_data],
    [update_signal_quality], [update_interval]).

    Conventions.
    - A [bytearray] is a [list byte]; a slice [b[i:j]] is
      [firstn (j - i) (skipn i b)] and [b[i:]] is [skipn i b].
    - A Python [int] is a [Z]. A Python [float] is modelled by the rational
      number it denotes ([Q]): every float on this data path is either
      [float(n)] for an integer [n] between -155 and 100, a sum of such, or
      the quotient of such a sum by a count.
    - A raised exception is the [Raise] case of [result]; the Qt signals a
      method emits are returned as a list of [signal] values, in emission
      order.
    - A [deque(maxlen=n)] is a record of its [maxlen] and its items, oldest
      first, appended to with [deque_append]. *)

From Stdlib Require Import List ZArith QArith Lia String Ascii Bool Arith.
From Stdlib Require Import Strings.Byte DecimalString Lqa.
From Equations Require Import Equations.
Import ListNotations.

Set Implicit Arguments.
Close Scope Q_scope.
Open Scope list_scope.

(* ===================================================================== *)
(** * Exceptions *)
(* ===================================================================== *)

Module Py.

(** The two exceptions the decoding code can raise. *)
Inductive exn : Type :=
| IndexError
| ValueError (literal : string).

Inductive result (A : Type) : Type :=
| Ok (a : A)
| Raise (e : exn).
Arguments Ok {A} a.
Arguments Raise {A} e.

Definition bind {A B} (m : result A) (k : A -> result B) : result B :=
  match m with
  | Ok a => k a
  | Raise e => Raise e
  end.

(** [str(e)], as interpolated by an f-string. *)
Definition str_exn (e : exn) : string :=
  match e with
  | IndexError => "list index out of range"
  | ValueError s =>
      ("invalid literal for int() with base 16: '" ++ s ++ "'")%string
  end.

(** [l[i]] for a non-negative constant index. *)
Definition index {A} (l : list A) (i : nat) : result A :=
  match nth_error l i with
  | Some a => Ok a
  | None => Raise IndexError
  end.

End Py.

Notation "x <- m ;; k" := (Py.bind m (fun x => k))
  (at level 61, m at next level, right associativity).

(* ===================================================================== *)
(** * Byte strings *)
(* ===================================================================== *)

Definition bytes := list byte.

Definition PACKET_SIZE : nat := 36.

(** The literal [b"\xAA\xAA\x20"]. *)
Definition MARKER : bytes := [xaa; xaa; x20].

(** [sub] is a prefix of [buffer]. *)
Fixpoint startswith (buffer sub : bytes) {struct sub} : bool :=
  match sub, buffer with
  | [], _ => true
  | _ :: _, [] => false
  | s :: sub', b :: buffer' => Byte.eqb s b && startswith buffer' sub'
  end.

(** [buffer.find(sub)]: the lowest index at which [sub] occurs, [None] for
    Python's [-1].  [sub in buffer] is [find buffer sub <> None]. *)
Fixpoint find (buffer sub : bytes) : option nat :=
  if startswith buffer sub then Some 0
  else match buffer with
       | [] => None
       | _ :: buffer' => option_map S (find buffer' sub)
       end.

(** [buffer[i:j]] for [0 <= i <= j]. *)
Definition slice (buffer : bytes) (i j : nat) : bytes :=
  firstn (j - i) (skipn i buffer).

(* ===================================================================== *)
(** * Hexadecimal formatting and parsing *)
(* ===================================================================== *)

Definition hex_digit (n : N) : ascii :=
  match n with
  | 0 => "0" | 1 => "1" | 2 => "2" | 3 => "3" | 4 => "4"
  | 5 => "5" | 6 => "6" | 7 => "7" | 8 => "8" | 9 => "9"
  | 10 => "A" | 11 => "B" | 12 => "C" | 13 => "D" | 14 => "E"
  | _ => "F"
  end%N%char.

(** [f"{byte:02X}"] for an element of a [bytearray]. *)
Definition format_02X (b : byte) : string :=
  let n := Byte.to_N b in
  String (hex_digit (n / 16)) (String (hex_digit (n mod 16)) EmptyString).

(** The value of a hexadecimal digit, upper or lower case, from its
    character code. *)
Definition hex_value (c : ascii) : option Z :=
  let code := Z.of_N (N_of_ascii c) in
  if ((48 <=? code) && (code <=? 57))%Z then Some (code - 48)%Z
  else if ((65 <=? code) && (code <=? 70))%Z then Some (code - 55)%Z
  else if ((97 <=? code) && (code <=? 102))%Z then Some (code - 87)%Z
  else None.

Fixpoint int_16_digits (s : string) (acc : Z) : option Z :=
  match s with
  | EmptyString => Some acc
  | String c s' =>
      match hex_value c with
      | Some d => int_16_digits s' (16 * acc + d)
      | None => None
      end
  end.

(** [int(s, 16)] on a string of hexadecimal digits; anything else, the empty
    string included, raises [ValueError]. *)
Definition int_16 (s : string) : Py.result Z :=
  match s with
  | EmptyString => Py.Raise (Py.ValueError s)
  | _ => match int_16_digits s 0 with
         | Some n => Py.Ok n
         | None => Py.Raise (Py.ValueError s)
         end
  end.

(* ===================================================================== *)
(** * BLEWorker *)
(* ===================================================================== *)

(** The signals of [BLEWorker] that the byte-stream code emits. *)
Inductive signal : Type :=
| data_received (channel : string) (stress attention : Q) (signal_quality : Z)
| log_message (text : string).

Record BLEWorker : Type := mkBLEWorker {
  buffer_left : bytes;
  buffer_right : bytes
}.

(** [BLEWorker.__init__]. *)
Definition BLEWorker_init : BLEWorker :=
  {| buffer_left := []; buffer_right := [] |}.

(** The [try] block of [process_long_packet]: the three decoded integers
    [(stress_int, attention_int, signal_quality_int)]. *)
Definition decode_fields (packet : bytes) : Py.result (Z * Z * Z) :=
  let hex_values := map format_02X packet in
  meditation_hex <- Py.index hex_values 32 ;;
  attention_hex <- Py.index hex_values 34 ;;
  signal_quality_hex <- Py.index hex_values 4 ;;
  meditation_int <- int_16 meditation_hex ;;
  attention_int <- int_16 attention_hex ;;
  signal_quality_int <- int_16 signal_quality_hex ;;
  let stress_int := (100 - meditation_int)%Z in
  Py.Ok (stress_int, attention_int, signal_quality_int).

(** [process_long_packet]: the one signal it emits. *)
Definition process_long_packet (packet : bytes) (channel : string) : signal :=
  match decode_fields packet with
  | Py.Ok (stress_int, attention_int, signal_quality_int) =>
      data_received channel (inject_Z stress_int) (inject_Z attention_int)
        signal_quality_int
  | Py.Raise e =>
      log_message ("Error processing packet: " ++ Py.str_exn e)%string
  end.

(** [inspect] keeps the equation of a scrutinee, for the termination proof. *)
Definition inspect {A} (a : A) : {b : A | a = b} := exist _ a eq_refl.

(** The [while] loop of [notification_handler], from the state in which
    [buffer] already holds the appended data: the packets handed to
    [process_long_packet], in call order, and the buffer left when the loop
    exits. *)
Equations? extract_packets (buffer : bytes) : list bytes * bytes
  by wf (List.length buffer) lt :=
  extract_packets buffer with inspect (find buffer MARKER) := {
    | exist _ None _ => ([], buffer)
    | exist _ (Some start_index) _
        with inspect (start_index + PACKET_SIZE <=? List.length buffer) := {
        | exist _ false _ => ([], buffer)
        | exist _ true Hlen =>
            let packet := slice buffer start_index (start_index + PACKET_SIZE) in
            let r := extract_packets (skipn (start_index + PACKET_SIZE) buffer) in
            (packet :: fst r, snd r) } }.
Proof.
  apply Nat.leb_le in Hlen. rewrite length_skipn.
  unfold PACKET_SIZE in *. lia.
Qed.

(** The buffer [notification_handler] selects for [channel]. *)
Definition buffer_of (self : BLEWorker) (channel : string) : bytes :=
  if String.eqb channel "left" then buffer_left self else buffer_right self.

(** The final assignment of [notification_handler]. *)
Definition set_buffer (self : BLEWorker) (channel : string) (buffer : bytes)
    : BLEWorker :=
  if String.eqb channel "left"
  then {| buffer_left := buffer; buffer_right := buffer_right self |}
  else {| buffer_left := buffer_left self; buffer_right := buffer |}.

(** [buffer += data] followed by the loop: the packets passed to
    [process_long_packet] and the buffer stored back. *)
Definition reassemble (buffer data : bytes) : list bytes * bytes :=
  extract_packets (buffer ++ data).

(** [notification_handler(sender, data, channel)]: the signals emitted, in
    order, and the worker afterwards. *)
Definition notification_handler (self : BLEWorker) (data : bytes)
    (channel : string) : list signal * BLEWorker :=
  let r := reassemble (buffer_of self channel) data in
  (map (fun packet => process_long_packet packet channel) (fst r),
   set_buffer self channel (snd r)).

(** Successive notifications on one channel: [reassemble] applied to each
    chunk in arrival order, the packets of all calls concatenated. *)
Fixpoint reassemble_chunks (buffer : bytes) (chunks : list bytes)
    : list bytes * bytes :=
  match chunks with
  | [] => ([], buffer)
  | data :: chunks' =>
      let r := reassemble buffer data in
      let r' := reassemble_chunks (snd r) chunks' in
      (fst r ++ fst r', snd r')
  end.

(** Successive calls of [notification_handler] on one channel. *)
Fixpoint notifications (self : BLEWorker) (chunks : list bytes)
    (channel : string) : list signal * BLEWorker :=
  match chunks with
  | [] => ([], self)
  | data :: chunks' =>
      let r := notification_handler self data channel in
      let r' := notifications (snd r) chunks' channel in
      (fst r ++ fst r', snd r')
  end.

(** A 36-byte sequence that begins with the marker. *)
Definition is_frame (packet : bytes) : Prop :=
  List.length packet = PACKET_SIZE /\ startswith packet MARKER = true.

(** [noise_1 ++ frame_1 ++ noise_2 ++ frame_2 ++ ...]: the stretch of a
    buffer that a run of extracted frames, each preceded by the bytes skipped
    before its marker, occupies. *)
Fixpoint weave (noise frames : list bytes) : bytes :=
  match noise, frames with
  | n :: noise', f :: frames' => n ++ f ++ weave noise' frames'
  | _, _ => []
  end.

(* ===================================================================== *)
(** * Module-level helpers *)
(* ===================================================================== *)

(** [x < y] on numbers. *)
Definition Qltb (x y : Q) : bool :=
  (Qnum x * QDen y <? Qnum y * QDen x)%Z.

(** [sum(values)]: left to right from [0]. *)
Definition sum (values : list Q) : Q := fold_left Qplus values 0%Q.

(** [len(values)] as a number. *)
Definition len (values : list Q) : Q := inject_Z (Z.of_nat (List.length values)).

Definition denoise_signal (values : list Q) : option Q :=
  match values with
  | [] => None
  | _ => Some (sum values / len values)%Q
  end.

Definition categorize_stress_5 (value : option Q) : string :=
  match value with
  | None => "No Data"
  | Some value =>
      if Qltb value 20%Q then "Very Low"
      else if Qltb value 40%Q then "Low"
      else if Qltb value 60%Q then "Moderate"
      else if Qltb value 80%Q then "High"
      else "Very High"
  end.

(* ===================================================================== *)
(** * MyApp: data buffers and signal-quality labels *)
(* ===================================================================== *)

(** [collections.deque] with a [maxlen]; [items] has the oldest element
    first. *)
Record deque : Type := mkDeque {
  maxlen : nat;
  items : list Q
}.

(** [deque(maxlen=n)]. *)
Definition deque_new (n : nat) : deque := {| maxlen := n; items := [] |}.

(** [d.append(x)]: add on the right, then drop the leftmost element if the
    length exceeds [maxlen]. *)
Definition deque_append (d : deque) (x : Q) : deque :=
  let items' := items d ++ [x] in
  {| maxlen := maxlen d;
     items := if maxlen d <? List.length items' then tl items' else items' |}.

(** What a [QLabel] shows. *)
Record QLabel : Type := mkQLabel {
  text : string;
  styleSheet : string
}.

Record MyApp : Type := mkMyApp {
  stress_values_left : deque;
  stress_values_right : deque;
  interval_stress_buffer_left : list Q;
  interval_stress_buffer_right : list Q;
  interval_stress_left : deque;
  interval_stress_right : deque;
  signal_quality_label_left : QLabel;
  signal_quality_label_right : QLabel
}.

(** [setup_signal_label(side)]. *)
Definition setup_signal_label (side : string) : QLabel :=
  {| text := side ++ " Signal Quality: Unknown";
     styleSheet := "font-size: 18px; color: black; margin: 10px;" |}.

(** The state after [__init__]: [init_data_buffers] and the two labels of
    [setup_monitor_page]. *)
Definition MyApp_init : MyApp :=
  {| stress_values_left := deque_new 15;
     stress_values_right := deque_new 15;
     interval_stress_buffer_left := [];
     interval_stress_buffer_right := [];
     interval_stress_left := deque_new 5;
     interval_stress_right := deque_new 5;
     signal_quality_label_left := setup_signal_label "Left";
     signal_quality_label_right := setup_signal_label "Right" |}.

(** [str(n)] for an [int]. *)
Definition str_int (n : Z) : string := NilZero.string_of_int (Z.to_int n).

(** [update_signal_quality(label, quality, side)]: the label afterwards. *)
Definition update_signal_quality (label : QLabel) (quality : Z)
    (side : string) : QLabel :=
  if (quality =? 0)%Z then
    {| text := side ++ " Signal Quality: Good";
       styleSheet := "font-size: 18px; color: green; margin: 10px;" |}
  else if ((1 <=? quality) && (quality <=? 50))%Z then
    {| text := side ++ " Signal Quality: Poor (" ++ str_int quality ++ ")";
       styleSheet := "font-size: 18px; color: orange; margin: 10px;" |}
  else
    {| text := side ++ " Signal Quality: Very Poor (" ++ str_int quality ++ ")";
       styleSheet := "font-size: 18px; color: red; margin: 10px;" |}.

(** [handle_new_data(channel, stress, attention, signal_quality)]. *)
Definition handle_new_data (self : MyApp) (channel : string)
    (stress attention : Q) (signal_quality : Z) : MyApp :=
  if String.eqb channel "left" then
    let self :=
      {| stress_values_left := stress_values_left self;
         stress_values_right := stress_values_right self;
         interval_stress_buffer_left := interval_stress_buffer_left self;
         interval_stress_buffer_right := interval_stress_buffer_right self;
         interval_stress_left := interval_stress_left self;
         interval_stress_right := interval_stress_right self;
         signal_quality_label_left :=
           update_signal_quality (signal_quality_label_left self)
             signal_quality "Left";
         signal_quality_label_right := signal_quality_label_right self |} in
    if (signal_quality =? 0)%Z then
      {| stress_values_left := deque_append (stress_values_left self) stress;
         stress_values_right := stress_values_right self;
         interval_stress_buffer_left :=
           interval_stress_buffer_left self ++ [stress];
         interval_stress_buffer_right := interval_stress_buffer_right self;
         interval_stress_left := interval_stress_left self;
         interval_stress_right := interval_stress_right self;
         signal_quality_label_left := signal_quality_label_left self;
         signal_quality_label_right := signal_quality_label_right self |}
    else self
  else
    let self :=
      {| stress_values_left := stress_values_left self;
         stress_values_right := stress_values_right self;
         interval_stress_buffer_left := interval_stress_buffer_left self;
         interval_stress_buffer_right := interval_stress_buffer_right self;
         interval_stress_left := interval_stress_left self;
         interval_stress_right := interval_stress_right self;
         signal_quality_label_left := signal_quality_label_left self;
         signal_quality_label_right :=
           update_signal_quality (signal_quality_label_right self)
             signal_quality "Right" |} in
    if (signal_quality =? 0)%Z then
      {| stress_values_left := stress_values_left self;
         stress_values_right := deque_append (stress_values_right self) stress;
         interval_stress_buffer_left := interval_stress_buffer_left self;
         interval_stress_buffer_right :=
           interval_stress_buffer_right self ++ [stress];
         interval_stress_left := interval_stress_left self;
         interval_stress_right := interval_stress_right self;
         signal_quality_label_left := signal_quality_label_left self;
         signal_quality_label_right := signal_quality_label_right self |}
    else self.

(** One channel's half of [update_interval]: the interval deque and the
    interval buffer afterwards. *)
Definition update_interval_channel (interval_stress : deque)
    (interval_stress_buffer : list Q) : deque * list Q :=
  match interval_stress_buffer with
  | [] => (interval_stress, interval_stress_buffer)
  | _ =>
      let avg := (sum interval_stress_buffer / len interval_stress_buffer)%Q in
      (deque_append interval_stress avg, [])
  end.

(** [update_interval()]: what the call returns and the application
    afterwards.  The slot has no [return] statement, so the call evaluates to
    [None]; the redrawing of the bar chart and the summary text do not touch
    the fields modelled here. *)
Definition update_interval (self : MyApp) : option Q * MyApp :=
  let l := update_interval_channel (interval_stress_left self)
             (interval_stress_buffer_left self) in
  let r := update_interval_channel (interval_stress_right self)
             (interval_stress_buffer_right self) in
  (None,
   {| stress_values_left := stress_values_left self;
      stress_values_right := stress_values_right self;
      interval_stress_buffer_left := snd l;
      interval_stress_buffer_right := snd r;
      interval_stress_left := fst l;
      interval_stress_right := fst r;
      signal_quality_label_left := signal_quality_label_left self;
      signal_quality_label_right := signal_quality_label_right self |}).

(** What reaches the application: a [data_received] signal or a timeout of
    the 10-second interval timer. *)
Inductive event : Type :=
| NewData (channel : string) (stress attention : Q) (signal_quality : Z)
| IntervalTimeout.

Definition step (self : MyApp) (e : event) : MyApp :=
  match e with
  | NewData channel stress attention signal_quality =>
      handle_new_data self channel stress attention signal_quality
  | IntervalTimeout => snd (update_interval self)
  end.

Definition run (self : MyApp) (events : list event) : MyApp :=
  fold_left step events self.

(* ===================================================================== *)
(** * MyApp: what the interval timer displays *)
(* ===================================================================== *)

(** The loop [while len(values) < 5: values.insert(0, 0)] of
    [update_interval_plot]. *)
Equations? pad_front (values : list Q) : list Q
  by wf (5 - List.length values) lt :=
  pad_front values with inspect (List.length values <? 5) := {
    | exist _ true Hshort => pad_front (0%Q :: values)
    | exist _ false _ => values }.
Proof.
  destruct values as [|a [|b [|c [|d [|e values]]]]]; cbn in *;
    try lia; discriminate Hshort.
Qed.

(** One bar of the interval chart: its height and the text drawn above it,
    [categorize_stress_5(height)]. *)
Definition bars (interval_stress : deque) : list (Q * string) :=
  map (fun height => (height, categorize_stress_5 (Some height)))
    (pad_front (items interval_stress)).

(** [update_interval_plot()]: the bars of the left and of the right channel,
    from the first interval position to the fifth. *)
Definition update_interval_plot (self : MyApp)
    : list (Q * string) * list (Q * string) :=
  (bars (interval_stress_left self), bars (interval_stress_right self)).

(** A line feed. *)
Definition LF : string := String (ascii_of_nat 10) EmptyString.

Section Summary.

(** The rendering [f"{x:.2f}"] of a float, which depends on its binary
    expansion, is a parameter of the summary text. *)
Variable format_2f : Q -> string.

(** [d[-1]] of a non-empty deque. *)
Definition latest (d : deque) : Q := last (items d) 0%Q.

(** The f-string of [update_interval_summary]. *)
Definition summary_text (self : MyApp) : string :=
  let left_latest := latest (interval_stress_left self) in
  let right_latest := latest (interval_stress_right self) in
  ("Latest Interval Stress:" ++ LF
   ++ "  Left: " ++ format_2f left_latest
   ++ " (" ++ categorize_stress_5 (Some left_latest) ++ ")" ++ LF
   ++ "  Right: " ++ format_2f right_latest
   ++ " (" ++ categorize_stress_5 (Some right_latest) ++ ")" ++ LF)%string.

(** [update_interval_summary()]: the paragraphs of the text box
    afterwards. *)
Definition update_interval_summary (self : MyApp) (text_edit : list string)
    : list string :=
  match items (interval_stress_left self),
        items (interval_stress_right self) with
  | _ :: _, _ :: _ => text_edit ++ [summary_text self]
  | _, _ => text_edit
  end.

(** The slot [update_interval] with what it displays: the application, the
    bars drawn and the text box afterwards. *)
Definition on_interval_timeout (self : MyApp) (text_edit : list string)
    : MyApp * (list (Q * string) * list (Q * string)) * list string :=
  let self := snd (update_interval self) in
  (self, update_interval_plot self, update_interval_summary self text_edit).

(** The application with its text box, driven by the events that reach
    it. *)
Definition ui_step (st : MyApp * list string) (e : event)
    : MyApp * list string :=
  match e with
  | NewData channel stress attention signal_quality =>
      (handle_new_data (fst st) channel stress attention signal_quality,
       snd st)
  | IntervalTimeout =>
      let r := on_interval_timeout (fst st) (snd st) in (fst (fst r), snd r)
  end.

Definition ui_run (st : MyApp * list string) (events : list event)
    : MyApp * list string :=
  fold_left ui_step events st.

End Summary.

(* ===================================================================== *)
(** * BLEWorker: the connection loop *)
(* ===================================================================== *)

Definition CHARACTERISTIC_UUID_1 : string :=
  "6e400003-b5b0-f393-e0a9-e50e24dcca9f".
Definition CHARACTERISTIC_UUID_2 : string :=
  "6e400003-b5b1-f393-e0a9-e50e24dcca9f".

(** The list [uuids] of [ble_loop]. *)
Definition uuids : list string :=
  [CHARACTERISTIC_UUID_1; CHARACTERISTIC_UUID_2].

(** ["left" if uuid == CHARACTERISTIC_UUID_1 else "right"]. *)
Definition channel_of_uuid (uuid : string) : string :=
  if String.eqb uuid CHARACTERISTIC_UUID_1 then "left" else "right".

(** The signals [ble_loop] itself emits. *)
Inductive loop_signal : Type :=
| loop_log_message (text : string)
| connection_status (connected : bool).

(** What the loop gets back from its surroundings at a point where it asks
    them something: the value of [_stop_event.is_set()], the return of an
    awaited call or of the [BleakClient] constructor, or an [Exception]
    raised by it, with its [str]. *)
Inductive answer : Type :=
| is_set (stopped : bool)
| returns
| raises (e : string).

(** The points of [ble_loop] at which it waits for an answer, in program
    order.  [StartNotify k] and [StopNotify k] are the iterations of the two
    [for uuid in uuids] loops on [uuids[k]]. *)
Inductive point : Type :=
| OuterTest      (* while not self._stop_event.is_set(): *)
| NewClient      (*   client = BleakClient(self.device_address) *)
| Connect        (*   await client.connect() *)
| StartNotify (k : nat)  (* await client.start_notify(uuid, ...) *)
| InnerTest      (*   while not self._stop_event.is_set(): *)
| Sleep1         (*     await asyncio.sleep(1) *)
| StopNotify (k : nat)   (* await client.stop_notify(uuid) *)
| Disconnect     (*   await client.disconnect() *)
| Sleep5         (*   await asyncio.sleep(5), in the except clause *)
| Done.          (* the coroutine is over *)

(** The [except Exception as e] clause up to its sleep. *)
Definition on_exception (e : string) : point * list loop_signal :=
  (Sleep5,
   [loop_log_message ("Connection error: " ++ e); connection_status false]).

(** After iteration [k] of a [for uuid in uuids] loop: the next iteration, or
    [after] when the list is exhausted. *)
Definition next_uuid (again : nat -> point) (after : point) (k : nat)
    : point :=
  if S k <? List.length uuids then again (S k) else after.

(** One answer at one point: the next point and the signals emitted on the
    way to it.  [None] when the answer is not one the point can get. *)
Definition ble_loop_step (device_address : string) (p : point) (a : answer)
    : option (point * list loop_signal) :=
  match p, a with
  | OuterTest, is_set true => Some (Done, [])
  | OuterTest, is_set false => Some (NewClient, [])
  | NewClient, returns => Some (Connect, [])
  | Connect, returns =>
      Some (StartNotify 0,
            [loop_log_message ("Connected to " ++ device_address);
             connection_status true])
  | StartNotify k, returns =>
      let uuid := nth k uuids EmptyString in
      Some (next_uuid StartNotify InnerTest k,
            [loop_log_message
               ("Subscribed to " ++ uuid ++ " (" ++ channel_of_uuid uuid
                  ++ " channel)")])
  | InnerTest, is_set false => Some (Sleep1, [])
  | InnerTest, is_set true => Some (StopNotify 0, [])
  | Sleep1, returns => Some (InnerTest, [])
  | StopNotify k, returns => Some (next_uuid StopNotify Disconnect k, [])
  | Disconnect, returns =>
      Some (OuterTest,
            [loop_log_message ("Disconnected from " ++ device_address);
             connection_status false])
  | (NewClient | Connect | StartNotify _ | Sleep1 | StopNotify _
     | Disconnect), raises e => Some (on_exception e)
  | Sleep5, returns => Some (OuterTest, [])
  | Sleep5, raises _ => Some (Done, [])
  | _, _ => None
  end.

(** [ble_loop] against a sequence of answers, from a point and the signals
    emitted so far; an answer that does not fit the point is passed over. *)
Definition ble_loop_from (device_address : string)
    (st : point * list loop_signal) (answers : list answer)
    : point * list loop_signal :=
  fold_left
    (fun st a =>
       match ble_loop_step device_address (fst st) a with
       | Some (p, emitted) => (p, snd st ++ emitted)
       | None => st
       end)
    answers st.

(** [ble_loop()] from its start. *)
Definition ble_loop (device_address : string) (answers : list answer)
    : point * list loop_signal :=
  ble_loop_from device_address (OuterTest, []) answers.

(** [handle_connection_status(connected)]: the status bar message. *)
Definition handle_connection_status (connected : bool) : string :=
  if connected then "Connected to device" else "Disconnected from device".

(** The status bar after the [connection_status] signals among [signals]
    have been handled in order; [message] is what it showed before. *)
Definition status_bar (message : string) (signals : list loop_signal)
    : string :=
  fold_left
    (fun message s =>
       match s with
       | connection_status connected => handle_connection_status connected
       | loop_log_message _ => message
       end)
    signals message.

(* ===================================================================== *)
(** * The worker and the application together *)
(* ===================================================================== *)

(** [connect_ble_worker] connects [data_received] to [handle_new_data] (and
    [log_message] to the text box, which [MyApp] above does not hold): what
    one delivered signal does to the application. *)
Definition deliver (self : MyApp) (s : signal) : MyApp :=
  match s with
  | data_received channel stress attention signal_quality =>
      handle_new_data self channel stress attention signal_quality
  | log_message _ => self
  end.

(** The worker, the signals emitted and not yet delivered, oldest first, and
    the application. *)
Record System : Type := mkSystem {
  worker : BLEWorker;
  queued : list signal;
  gui : MyApp
}.

Definition System_init : System :=
  {| worker := BLEWorker_init; queued := []; gui := MyApp_init |}.

(** What can happen next: a notification reaches the worker, the oldest
    queued signal reaches the application, or the interval timer fires. *)
Inductive occurrence : Type :=
| Notification (channel : string) (data : bytes)
| Delivery
| IntervalTimer.

Definition System_step (st : System) (o : occurrence) : System :=
  match o with
  | Notification channel data =>
      let r := notification_handler (worker st) data channel in
      {| worker := snd r; queued := queued st ++ fst r; gui := gui st |}
  | Delivery =>
      match queued st with
      | [] => st
      | s :: rest =>
          {| worker := worker st; queued := rest; gui := deliver (gui st) s |}
      end
  | IntervalTimer =>
      {| worker := worker st; queued := queued st;
         gui := snd (update_interval (gui st)) |}
  end.

Definition System_run (st : System) (occurrences : list occurrence) : System :=
  fold_left System_step occurrences st.

(* ===================================================================== *)
(** * Vocabulary of the statements *)
(* ===================================================================== *)

(** The unsigned value of the byte at [offset] ([0] past the end). *)
Definition byte_at (packet : bytes) (offset : nat) : Z :=
  Z.of_N (Byte.to_N (nth offset packet x00)).

(** The signal is the error report of [process_long_packet], not a decoded
    sample. *)
Definition is_log_message (s : signal) : bool :=
  match s with
  | log_message _ => true
  | data_received _ _ _ _ => false
  end.

(** The frame of the decoding scenario: the marker, [0x00] at offset 4,
    [0x1E] at offset 32, [0x0A] at offset 34, zeros elsewhere. *)
Definition scenario_frame : bytes :=
  MARKER ++ [x00; x00] ++ repeat x00 27 ++ [x1e; x00; x0a; x00].

(** The arithmetic mean of a non-empty list: its sum over its length. *)
Definition mean (values : list Q) : Q := (sum values / len values)%Q.

(** The lengths the two deques of each channel may not exceed. *)
Definition within_capacity (self : MyApp) : Prop :=
  List.length (items (stress_values_left self)) <= 15 /\
  List.length (items (stress_values_right self)) <= 15 /\
  List.length (items (interval_stress_left self)) <= 5 /\
  List.length (items (interval_stress_right self)) <= 5.

(** The [maxlen] each deque was created with. *)
Definition deques_as_created (self : MyApp) : Prop :=
  maxlen (stress_values_left self) = 15 /\
  maxlen (stress_values_right self) = 15 /\
  maxlen (interval_stress_left self) = 5 /\
  maxlen (interval_stress_right self) = 5.

(** The marker does not occur in [buffer]. *)
Definition marker_free (buffer : bytes) : Prop := find buffer MARKER = None.

(** No turn of the loop of [notification_handler] is possible on [buffer]:
    it holds no marker, or fewer than 36 bytes from its first marker on. *)
Definition settled (buffer : bytes) : Prop :=
  find buffer MARKER = None \/
  exists i : nat,
    find buffer MARKER = Some i /\ List.length buffer < i + PACKET_SIZE.

(** What a [data_received] signal of [channel] carries when it was decoded
    from three bytes: stress between -155 and 100, attention and signal
    quality between 0 and 255. *)
Definition decoded_sample (channel : string) (s : signal) : Prop :=
  exists stress_int attention_int signal_quality_int : Z,
    s = data_received channel (inject_Z stress_int) (inject_Z attention_int)
          signal_quality_int /\
    (-155 <= stress_int <= 100)%Z /\
    (0 <= attention_int <= 255)%Z /\
    (0 <= signal_quality_int <= 255)%Z.

(** The last [n] elements of a list (the whole list if it is shorter). *)
Definition lastn {A : Type} (n : nat) (l : list A) : list A :=
  skipn (List.length l - n) l.

(** The stress value an event adds to the aggregates of one side ([true] for
    the channel "left", [false] for any other channel): that of a sample of
    that side whose signal quality is 0. *)
Definition accepted_of (side_left : bool) (e : event) : list Q :=
  match e with
  | NewData channel stress _ signal_quality =>
      if Bool.eqb (String.eqb channel "left") side_left
         && (signal_quality =? 0)%Z
      then [stress] else []
  | IntervalTimeout => []
  end.

(** The accepted stress values of one side, in arrival order. *)
Definition accepted (side_left : bool) (events : list event) : list Q :=
  flat_map (accepted_of side_left) events.

(** The accepted stress values of one side cut at the interval timeouts: the
    batches closed by a timeout, oldest first, and the batch still open.
    [pending] is the open batch at the start. *)
Fixpoint batches (side_left : bool) (events : list event) (pending : list Q)
    : list (list Q) * list Q :=
  match events with
  | [] => ([], pending)
  | IntervalTimeout :: events' =>
      let r := batches side_left events' [] in (pending :: fst r, snd r)
  | e :: events' =>
      batches side_left events' (pending ++ accepted_of side_left e)
  end.

(** The means of the non-empty batches. *)
Definition batch_means (closed : list (list Q)) : list Q :=
  flat_map (fun batch => match batch with [] => [] | _ => [mean batch] end)
    closed.

(** The event is a sample of the channel "left". *)
Definition is_left_sample (e : event) : bool :=
  match e with
  | NewData channel _ _ _ => String.eqb channel "left"
  | IntervalTimeout => false
  end.

(** The loop is between a successful [connect] and the end of that
    connection: subscribing, active or tearing down. *)
Definition connection_open (p : point) : bool :=
  match p with
  | StartNotify _ | InnerTest | Sleep1 | StopNotify _ | Disconnect => true
  | OuterTest | NewClient | Connect | Sleep5 | Done => false
  end.

(** The values of the [connection_status] signals, in order. *)
Definition statuses (signals : list loop_signal) : list bool :=
  flat_map
    (fun s => match s with
              | connection_status connected => [connected]
              | loop_log_message _ => []
              end)
    signals.

(** No two consecutive values are both [true]. *)
Fixpoint no_true_twice (l : list bool) : bool :=
  match l with
  | true :: (true :: _) => false
  | _ :: l' => no_true_twice l'
  | [] => true
  end.

(** Both subscriptions are in place: the loop is active or tearing down. *)
Definition subscribed (p : point) : bool :=
  match p with
  | InnerTest | Sleep1 | StopNotify _ | Disconnect => true
  | _ => false
  end.

(** The four signals from a successful connect to the second
    subscription. *)
Definition connected_and_subscribed (device_address : string)
    : list loop_signal :=
  [loop_log_message ("Connected to " ++ device_address);
   connection_status true;
   loop_log_message
     ("Subscribed to 6e400003-b5b0-f393-e0a9-e50e24dcca9f (left channel)");
   loop_log_message
     ("Subscribed to 6e400003-b5b1-f393-e0a9-e50e24dcca9f (right channel)")].

(** What is known of the signals emitted so far at each point. *)
Definition loop_invariant (device_address : string)
    (st : point * list loop_signal) : Prop :=
  last (statuses (snd st)) false = connection_open (fst st) /\
  no_true_twice (statuses (snd st)) = true /\
  (forall message : string,
     status_bar message (snd st) =
       match statuses (snd st) with
       | [] => message
       | _ => handle_connection_status (connection_open (fst st))
       end) /\
  match fst st with
  | StartNotify 0 =>
      exists earlier,
        snd st = earlier ++ firstn 2 (connected_and_subscribed device_address)
  | StartNotify 1 =>
      exists earlier,
        snd st = earlier ++ firstn 3 (connected_and_subscribed device_address)
  | StartNotify _ => False
  | InnerTest | Sleep1 | StopNotify _ | Disconnect =>
      exists earlier,
        snd st = earlier ++ connected_and_subscribed device_address
  | _ => True
  end.

(** A stress value a decoded sample can carry, or a mean of such. *)
Definition in_range (v : Q) : Prop := (-155 <= v)%Q /\ (v <= 100)%Q.

(** Every stress value the application holds is in range. *)
Definition all_in_range (self : MyApp) : Prop :=
  Forall in_range (items (stress_values_left self)) /\
  Forall in_range (items (stress_values_right self)) /\
  Forall in_range (interval_stress_buffer_left self) /\
  Forall in_range (interval_stress_buffer_right self) /\
  Forall in_range (items (interval_stress_left self)) /\
  Forall in_range (items (interval_stress_right self)).

(** The signal carries a stress value in range, if it carries one. *)
Definition signal_in_range (s : signal) : Prop :=
  match s with
  | data_received _ stress _ _ => in_range stress
  | log_message _ => True
  end.

(* ===================================================================== *)
(** * Searching a buffer *)
(* ===================================================================== *)

Section Find.

Variable sub : bytes.

Lemma startswith_length (buffer : bytes) :
  startswith buffer sub = true -> List.length sub <= List.length buffer.
Proof.
  revert buffer. induction sub as [|s sub' IH]; intros [|b buffer] H;
    simpl in *; try lia; try discriminate.
  apply andb_prop in H as [_ H]. apply IH in H. lia.
Qed.

Lemma startswith_app (buffer data : bytes) :
  startswith buffer sub = true -> startswith (buffer ++ data) sub = true.
Proof.
  revert buffer. induction sub as [|s sub' IH]; intros [|b buffer] H;
    simpl in *; try reflexivity; try discriminate.
  apply andb_prop in H as [H1 H2].
  rewrite H1, (IH _ H2). reflexivity.
Qed.

Lemma startswith_app_false (buffer data : bytes) :
  List.length sub <= List.length buffer ->
  startswith buffer sub = false -> startswith (buffer ++ data) sub = false.
Proof.
  revert buffer. induction sub as [|s sub' IH]; intros [|b buffer] Hlen H;
    simpl in *; try discriminate; try lia.
  apply andb_false_iff in H as [H | H].
  - rewrite H. reflexivity.
  - rewrite (IH buffer); [apply andb_false_r | lia | exact H].
Qed.

Lemma find_bound (buffer : bytes) (i : nat) :
  find buffer sub = Some i -> i + List.length sub <= List.length buffer.
Proof.
  revert i. induction buffer as [|b buffer IH]; intros i; simpl.
  - destruct (startswith [] sub) eqn:E; [|discriminate].
    intros [= <-]. apply startswith_length in E. simpl in *. lia.
  - destruct (startswith (b :: buffer) sub) eqn:E.
    + intros [= <-]. apply startswith_length in E. simpl in *. lia.
    + destruct (find buffer sub) as [j|]; [|discriminate].
      intros [= <-]. specialize (IH j eq_refl). simpl. lia.
Qed.

(** The marker found at [i] starts there. *)
Lemma find_startswith (buffer : bytes) (i : nat) :
  find buffer sub = Some i -> startswith (skipn i buffer) sub = true.
Proof.
  revert i. induction buffer as [|b buffer IH]; intros i; simpl.
  - destruct (startswith [] sub) eqn:E; [|discriminate].
    intros [= <-]. exact E.
  - destruct (startswith (b :: buffer) sub) eqn:E.
    + intros [= <-]. exact E.
    + destruct (find buffer sub) as [j|]; [|discriminate].
      intros [= <-]. simpl. apply IH. reflexivity.
Qed.

(** The first occurrence in a buffer is still the first once data is
    appended. *)
Lemma find_app (buffer data : bytes) (i : nat) :
  find buffer sub = Some i -> find (buffer ++ data) sub = Some i.
Proof.
  revert i. induction buffer as [|b buffer IH]; intros i.
  - simpl. destruct (startswith [] sub) eqn:E; [|discriminate].
    intros [= <-]. destruct sub; [|discriminate].
    destruct data; reflexivity.
  - intros H. pose proof (find_bound _ H) as Hb. simpl in H.
    change ((b :: buffer) ++ data) with (b :: (buffer ++ data)).
    cbn [find].
    change (b :: (buffer ++ data)) with ((b :: buffer) ++ data).
    destruct (startswith (b :: buffer) sub) eqn:E.
    + rewrite (startswith_app _ _ E). exact H.
    + rewrite startswith_app_false; [| lia | exact E].
      destruct (find buffer sub) as [j|]; [|discriminate].
      rewrite (IH j eq_refl). exact H.
Qed.

Lemma find_app_None (buffer data : bytes) :
  find (buffer ++ data) sub = None -> find buffer sub = None.
Proof.
  intros H. destruct (find buffer sub) as [i|] eqn:E; [|reflexivity].
  rewrite (find_app _ data E) in H. discriminate.
Qed.

End Find.

Lemma find_repeat_x00 (n : nat) : find (repeat x00 n) MARKER = None.
Proof.
  induction n as [|n IH]; [reflexivity|].
  simpl repeat. cbn [find]. rewrite IH. reflexivity.
Qed.

(* ===================================================================== *)
(** * The extraction loop *)
(* ===================================================================== *)

(** One turn of the [while] loop. *)
Lemma extract_packets_step (buffer : bytes) :
  extract_packets buffer =
  match find buffer MARKER with
  | None => ([], buffer)
  | Some start_index =>
      if start_index + PACKET_SIZE <=? List.length buffer then
        let r := extract_packets (skipn (start_index + PACKET_SIZE) buffer) in
        (slice buffer start_index (start_index + PACKET_SIZE) :: fst r, snd r)
      else ([], buffer)
  end.
Proof.
  funelim (extract_packets buffer).
  - rewrite e. reflexivity.
  - rewrite e, Hlen. reflexivity.
  - rewrite e, e0. reflexivity.
Qed.

(** Induction along the turns of the loop. *)
Lemma extract_packets_induction (P : bytes -> Prop) :
  (forall buffer, find buffer MARKER = None -> P buffer) ->
  (forall buffer i, find buffer MARKER = Some i ->
     List.length buffer < i + PACKET_SIZE -> P buffer) ->
  (forall buffer i, find buffer MARKER = Some i ->
     i + PACKET_SIZE <= List.length buffer ->
     P (skipn (i + PACKET_SIZE) buffer) -> P buffer) ->
  forall buffer, P buffer.
Proof.
  intros Hnone Hshort Hturn buffer.
  induction buffer as [buffer IH] using (induction_ltof1 _ (@List.length byte)).
  destruct (find buffer MARKER) as [i|] eqn:E; [|apply Hnone, E].
  destruct (Nat.le_gt_cases (i + PACKET_SIZE) (List.length buffer)) as [Hle|Hgt].
  - apply (Hturn _ i E Hle). apply IH. unfold ltof.
    rewrite length_skipn. unfold PACKET_SIZE in *. lia.
  - apply (Hshort _ i E Hgt).
Qed.

Lemma extract_packets_none (buffer : bytes) :
  find buffer MARKER = None -> extract_packets buffer = ([], buffer).
Proof. intros H. rewrite extract_packets_step, H. reflexivity. Qed.

Lemma extract_packets_short (buffer : bytes) (i : nat) :
  find buffer MARKER = Some i -> List.length buffer < i + PACKET_SIZE ->
  extract_packets buffer = ([], buffer).
Proof.
  intros H Hlen. rewrite extract_packets_step, H.
  destruct (i + PACKET_SIZE <=? List.length buffer) eqn:E; [|reflexivity].
  apply Nat.leb_le in E. lia.
Qed.

Lemma extract_packets_turn (buffer : bytes) (i : nat) :
  find buffer MARKER = Some i -> i + PACKET_SIZE <= List.length buffer ->
  extract_packets buffer =
  (slice buffer i (i + PACKET_SIZE)
     :: fst (extract_packets (skipn (i + PACKET_SIZE) buffer)),
   snd (extract_packets (skipn (i + PACKET_SIZE) buffer))).
Proof.
  intros H Hlen. rewrite extract_packets_step, H.
  apply Nat.leb_le in Hlen. rewrite Hlen. reflexivity.
Qed.

Lemma slice_app (buffer data : bytes) (i j : nat) :
  j <= List.length buffer -> slice (buffer ++ data) i j = slice buffer i j.
Proof.
  intros Hj. unfold slice. rewrite skipn_app, firstn_app, length_skipn.
  replace (j - i - (List.length buffer - i)) with 0 by lia.
  rewrite firstn_O, app_nil_r. reflexivity.
Qed.

Lemma skipn_app_le (buffer data : bytes) (n : nat) :
  n <= List.length buffer -> skipn n (buffer ++ data) = skipn n buffer ++ data.
Proof.
  intros Hn. rewrite skipn_app.
  replace (n - List.length buffer) with 0 by lia. reflexivity.
Qed.

Lemma slice_length (buffer : bytes) (i : nat) :
  i + PACKET_SIZE <= List.length buffer ->
  List.length (slice buffer i (i + PACKET_SIZE)) = PACKET_SIZE.
Proof.
  intros H. unfold slice. rewrite length_firstn, length_skipn. lia.
Qed.

Lemma startswith_firstn_keep (buffer sub : bytes) (n : nat) :
  List.length sub <= n -> startswith buffer sub = true ->
  startswith (firstn n buffer) sub = true.
Proof.
  revert buffer n. induction sub as [|s sub IH]; intros [|b buffer] [|n] Hn H;
    simpl in *; try reflexivity; try discriminate; try lia.
  apply andb_prop in H as [H1 H2]. rewrite H1. apply IH; [lia | exact H2].
Qed.

(** The three pieces a turn of the loop cuts the buffer into. *)
Lemma buffer_split (buffer : bytes) (i : nat) :
  buffer = firstn i buffer ++ slice buffer i (i + PACKET_SIZE)
             ++ skipn (i + PACKET_SIZE) buffer.
Proof.
  unfold slice. replace (i + PACKET_SIZE - i) with PACKET_SIZE by lia.
  rewrite Nat.add_comm, <- skipn_skipn.
  rewrite (firstn_skipn PACKET_SIZE), (firstn_skipn i). reflexivity.
Qed.

(** The loop on a buffer, then on what it left with more data appended, does
    what the loop does on the buffer with the data appended at once. *)
Lemma extract_packets_app (buffer data : bytes) :
  extract_packets (buffer ++ data) =
  (fst (extract_packets buffer)
     ++ fst (extract_packets (snd (extract_packets buffer) ++ data)),
   snd (extract_packets (snd (extract_packets buffer) ++ data))).
Proof.
  induction buffer as [buffer H | buffer i H Hlen | buffer i H Hlen IH]
    using extract_packets_induction.
  - rewrite (extract_packets_none _ H). simpl. apply surjective_pairing.
  - rewrite (extract_packets_short _ H Hlen). simpl. apply surjective_pairing.
  - rewrite (extract_packets_turn _ H Hlen). simpl.
    rewrite (@extract_packets_turn (buffer ++ data) i).
    + rewrite slice_app, skipn_app_le by lia. rewrite IH. reflexivity.
    + apply find_app, H.
    + rewrite length_app. lia.
Qed.

(** Every packet the loop hands on is a frame. *)
Lemma extract_packets_frames (buffer : bytes) :
  Forall is_frame (fst (extract_packets buffer)).
Proof.
  induction buffer as [buffer H | buffer i H Hlen | buffer i H Hlen IH]
    using extract_packets_induction.
  - rewrite (extract_packets_none _ H). constructor.
  - rewrite (extract_packets_short _ H Hlen). constructor.
  - rewrite (extract_packets_turn _ H Hlen). simpl. constructor; [|exact IH].
    split; [apply slice_length, Hlen|].
    unfold slice. apply startswith_firstn_keep.
    + simpl. unfold PACKET_SIZE. lia.
    + apply find_startswith, H.
Qed.

(** The packets are disjoint stretches of the buffer, in buffer order, and
    the buffer left over is what follows the last of them. *)
Lemma extract_packets_weave (buffer : bytes) :
  exists noise : list bytes,
    List.length noise = List.length (fst (extract_packets buffer)) /\
    buffer = weave noise (fst (extract_packets buffer))
               ++ snd (extract_packets buffer).
Proof.
  induction buffer as [buffer H | buffer i H Hlen | buffer i H Hlen IH]
    using extract_packets_induction.
  - exists []. rewrite (extract_packets_none _ H). split; reflexivity.
  - exists []. rewrite (extract_packets_short _ H Hlen). split; reflexivity.
  - destruct IH as (noise & Hn & Hw).
    exists (firstn i buffer :: noise).
    rewrite (extract_packets_turn _ H Hlen). simpl. split; [lia|].
    rewrite <- !app_assoc, <- Hw. apply buffer_split.
Qed.

(** When the loop exits, no further turn is possible. *)
Lemma extract_packets_rest (buffer : bytes) :
  extract_packets (snd (extract_packets buffer)) =
  ([], snd (extract_packets buffer)).
Proof.
  induction buffer as [buffer H | buffer i H Hlen | buffer i H Hlen IH]
    using extract_packets_induction.
  - rewrite (extract_packets_none _ H). apply extract_packets_none, H.
  - rewrite (extract_packets_short _ H Hlen).
    apply (extract_packets_short _ H Hlen).
  - rewrite (extract_packets_turn _ H Hlen). exact IH.
Qed.

Lemma find_startswith_0 (buffer sub : bytes) :
  startswith buffer sub = true -> find buffer sub = Some 0.
Proof. intros H. destruct buffer; simpl; rewrite H; reflexivity. Qed.

(** A frame at the head of the buffer is the first packet. *)
Lemma extract_packets_frame_head (frame rest : bytes) :
  is_frame frame ->
  extract_packets (frame ++ rest) =
  (frame :: fst (extract_packets rest), snd (extract_packets rest)).
Proof.
  intros [Hlen Hstart].
  assert (Hfind : find (frame ++ rest) MARKER = Some 0)
    by apply find_startswith_0, startswith_app, Hstart.
  rewrite (extract_packets_turn _ Hfind) by (rewrite length_app; simpl; lia).
  unfold slice. simpl Nat.add. rewrite Nat.sub_0_r. simpl skipn at 1.
  rewrite <- Hlen, firstn_app, skipn_app, Nat.sub_diag, firstn_all, skipn_all.
  simpl. rewrite app_nil_r. reflexivity.
Qed.

(* ===================================================================== *)
(** * Chunked delivery *)
(* ===================================================================== *)

Lemma reassemble_chunks_concat (buffer data : bytes) (chunks : list bytes) :
  reassemble_chunks buffer (data :: chunks) =
  reassemble buffer (List.concat (data :: chunks)).
Proof.
  revert buffer data. induction chunks as [|data' chunks IH]; intros buffer data.
  - simpl. rewrite !app_nil_r. symmetry. apply surjective_pairing.
  - change (reassemble_chunks buffer (data :: data' :: chunks))
      with (fst (reassemble buffer data)
              ++ fst (reassemble_chunks (snd (reassemble buffer data))
                        (data' :: chunks)),
            snd (reassemble_chunks (snd (reassemble buffer data))
                   (data' :: chunks))).
    rewrite IH. unfold reassemble.
    change (List.concat (data :: data' :: chunks))
      with (data ++ List.concat (data' :: chunks)).
    rewrite (app_assoc buffer data). symmetry. apply extract_packets_app.
Qed.

Lemma reassemble_chunks_none (buffer : bytes) (chunks : list bytes) :
  find (buffer ++ List.concat chunks) MARKER = None ->
  reassemble_chunks buffer chunks = ([], buffer ++ List.concat chunks).
Proof.
  revert buffer. induction chunks as [|data chunks IH]; intros buffer H.
  - simpl. rewrite app_nil_r. reflexivity.
  - simpl in *. rewrite app_assoc in H. unfold reassemble.
    rewrite (extract_packets_none _ (find_app_None _ _ _ H)). simpl.
    rewrite (IH _ H), app_assoc. reflexivity.
Qed.

Lemma buffer_of_set_buffer (self : BLEWorker) (channel : string)
    (buffer : bytes) :
  buffer_of (set_buffer self channel buffer) channel = buffer.
Proof.
  unfold buffer_of, set_buffer. destruct (String.eqb channel "left");
    reflexivity.
Qed.

Lemma set_buffer_set_buffer (self : BLEWorker) (channel : string)
    (buffer buffer' : bytes) :
  set_buffer (set_buffer self channel buffer) channel buffer' =
  set_buffer self channel buffer'.
Proof.
  unfold set_buffer. destruct (String.eqb channel "left"); reflexivity.
Qed.

Lemma set_buffer_buffer_of (self : BLEWorker) (channel : string) :
  set_buffer self channel (buffer_of self channel) = self.
Proof.
  destruct self. unfold buffer_of, set_buffer.
  destruct (String.eqb channel "left"); reflexivity.
Qed.

(** Successive notifications decode the packets of [reassemble_chunks]. *)
Lemma notifications_reassemble (self : BLEWorker) (chunks : list bytes)
    (channel : string) :
  notifications self chunks channel =
  (map (fun packet => process_long_packet packet channel)
     (fst (reassemble_chunks (buffer_of self channel) chunks)),
   set_buffer self channel
     (snd (reassemble_chunks (buffer_of self channel) chunks))).
Proof.
  revert self. induction chunks as [|data chunks IH]; intros self.
  - simpl. rewrite set_buffer_buffer_of. reflexivity.
  - simpl. rewrite IH. unfold notification_handler. simpl.
    rewrite buffer_of_set_buffer, set_buffer_set_buffer, map_app.
    reflexivity.
Qed.

(* ===================================================================== *)
(** * Decoding *)
(* ===================================================================== *)

(** Formatting a byte as two hexadecimal digits and parsing them back gives
    the byte's value. *)
Lemma int_16_format_02X (b : byte) :
  int_16 (format_02X b) = Py.Ok (Z.of_N (Byte.to_N b)).
Proof. destruct b; reflexivity. Qed.

Lemma index_hex_values (packet : bytes) (i : nat) :
  i < List.length packet ->
  Py.index (map format_02X packet) i = Py.Ok (format_02X (nth i packet x00)).
Proof.
  intros H. unfold Py.index.
  rewrite nth_error_map, (nth_error_nth' packet x00 H). reflexivity.
Qed.

Lemma index_hex_values_out (packet : bytes) (i : nat) :
  List.length packet <= i ->
  Py.index (map format_02X packet) i = Py.Raise Py.IndexError.
Proof.
  intros H. unfold Py.index. rewrite nth_error_map.
  apply nth_error_None in H. rewrite H. reflexivity.
Qed.

Lemma decode_fields_ok (packet : bytes) :
  35 <= List.length packet ->
  decode_fields packet =
  Py.Ok ((100 - byte_at packet 32)%Z, byte_at packet 34, byte_at packet 4).
Proof.
  intros H. unfold decode_fields.
  rewrite !index_hex_values by lia. cbn [Py.bind].
  rewrite !int_16_format_02X. reflexivity.
Qed.

Lemma decode_fields_short (packet : bytes) :
  List.length packet < 35 -> decode_fields packet = Py.Raise Py.IndexError.
Proof.
  intros H. unfold decode_fields.
  destruct (Nat.le_gt_cases (List.length packet) 32) as [Hle|Hgt].
  - rewrite (index_hex_values_out _ Hle). reflexivity.
  - rewrite (@index_hex_values packet 32) by lia. cbn [Py.bind].
    rewrite (@index_hex_values_out packet 34) by lia. reflexivity.
Qed.

Lemma process_long_packet_ok (packet : bytes) (channel : string) :
  35 <= List.length packet ->
  process_long_packet packet channel =
  data_received channel (inject_Z (100 - byte_at packet 32))
    (inject_Z (byte_at packet 34)) (byte_at packet 4).
Proof.
  intros H. unfold process_long_packet. rewrite (decode_fields_ok _ H).
  reflexivity.
Qed.

Lemma process_long_packet_short (packet : bytes) (channel : string) :
  List.length packet < 35 ->
  process_long_packet packet channel =
  log_message "Error processing packet: list index out of range".
Proof.
  intros H. unfold process_long_packet. rewrite (decode_fields_short _ H).
  reflexivity.
Qed.

Lemma byte_at_range (packet : bytes) (offset : nat) :
  (0 <= byte_at packet offset <= 255)%Z.
Proof.
  unfold byte_at. pose proof (Byte.to_N_bounded (nth offset packet x00)). lia.
Qed.

(* ===================================================================== *)
(** * Reassembly: the properties *)
(* ===================================================================== *)

(** C1. Chunk-boundary independence.  Delivering a first chunk and then any
    further chunks, in order, on one channel hands the same packets to the
    decoder and emits the same signals, in the same order, and leaves the same
    worker, as one notification carrying the concatenation of the chunks.
    The packets are 36-byte frames that lie in the stream one after the other,
    each after the bytes skipped before its marker.  A single chunk made of
    two consecutive frames, arriving on an empty buffer, yields exactly two
    decoded samples, the first frame's before the second's. *)
Theorem chunk_boundary_independence (self : BLEWorker) (channel : string)
    (data : bytes) (chunks : list bytes) :
  let stream := List.concat (data :: chunks) in
  let buffer := buffer_of self channel in
  reassemble_chunks buffer (data :: chunks) = reassemble buffer stream /\
  notifications self (data :: chunks) channel =
    notification_handler self stream channel /\
  Forall is_frame (fst (reassemble buffer stream)) /\
  (exists noise : list bytes,
     List.length noise = List.length (fst (reassemble buffer stream)) /\
     buffer ++ stream =
       weave noise (fst (reassemble buffer stream))
         ++ snd (reassemble buffer stream)) /\
  (forall frame1 frame2 : bytes,
     buffer = [] -> is_frame frame1 -> is_frame frame2 ->
     notification_handler self (frame1 ++ frame2) channel =
       ([data_received channel (inject_Z (100 - byte_at frame1 32))
           (inject_Z (byte_at frame1 34)) (byte_at frame1 4);
         data_received channel (inject_Z (100 - byte_at frame2 32))
           (inject_Z (byte_at frame2 34)) (byte_at frame2 4)],
        set_buffer self channel [])).
Proof.
  intros stream buffer.
  assert (Hchunks : reassemble_chunks buffer (data :: chunks)
                    = reassemble buffer stream)
    by apply reassemble_chunks_concat.
  split; [exact Hchunks|]. split; [|split; [|split]].
  - rewrite notifications_reassemble. fold buffer. rewrite Hchunks.
    reflexivity.
  - apply extract_packets_frames.
  - apply extract_packets_weave.
  - intros frame1 frame2 Hempty Hf1 Hf2.
    assert (Htwo : extract_packets (frame1 ++ frame2)
                   = ([frame1; frame2], [])).
    { rewrite (extract_packets_frame_head frame2 Hf1).
      rewrite <- (app_nil_r frame2), (extract_packets_frame_head [] Hf2).
      rewrite (@extract_packets_none []) by reflexivity.
      rewrite app_nil_r. reflexivity. }
    unfold notification_handler, reassemble. fold buffer.
    rewrite Hempty. cbn [app]. rewrite Htwo.
    destruct Hf1 as [Hl1 _], Hf2 as [Hl2 _]. unfold PACKET_SIZE in *.
    cbn [fst snd map].
    rewrite !process_long_packet_ok by lia. reflexivity.
Qed.

(** The scenario of C1 on two copies of [scenario_frame]. *)
Lemma chunk_boundary_independence_witness :
  buffer_of BLEWorker_init "left" = [] /\
  is_frame scenario_frame /\
  notification_handler BLEWorker_init (scenario_frame ++ scenario_frame)
    "left" =
    ([data_received "left" (inject_Z (100 - byte_at scenario_frame 32))
        (inject_Z (byte_at scenario_frame 34)) (byte_at scenario_frame 4);
      data_received "left" (inject_Z (100 - byte_at scenario_frame 32))
        (inject_Z (byte_at scenario_frame 34)) (byte_at scenario_frame 4)],
     set_buffer BLEWorker_init "left" []).
Proof.
  assert (Hf : is_frame scenario_frame) by (split; reflexivity).
  split; [reflexivity|]. split; [exact Hf|].
  apply (proj2 (proj2 (proj2 (proj2
    (chunk_boundary_independence BLEWorker_init "left" [] []))))
    scenario_frame scenario_frame); [reflexivity | exact Hf | exact Hf].
Defined.

(** C9. No partial frame and no byte used twice.  While the buffer with the
    new data appended holds fewer than 36 bytes from the first marker on, a
    notification hands no packet to the decoder and keeps the whole buffer;
    the next notification that brings the count to 36 hands on, first, the 36
    bytes from that marker on.  Every packet ever handed on has exactly 36
    bytes and starts with the marker, and over any run of notifications the
    packets occupy disjoint stretches of the byte stream: the stream is, in
    order, each packet preceded by the bytes skipped before it, followed by
    the buffer kept. *)
Theorem no_partial_frame_no_byte_twice (buffer data : bytes)
    (chunks : list bytes) :
  (forall i : nat,
     find (buffer ++ data) MARKER = Some i ->
     List.length (buffer ++ data) < i + PACKET_SIZE ->
     reassemble buffer data = ([], buffer ++ data) /\
     forall data' : bytes,
       i + PACKET_SIZE <= List.length ((buffer ++ data) ++ data') ->
       exists more : list bytes,
         fst (reassemble (snd (reassemble buffer data)) data') =
           slice ((buffer ++ data) ++ data') i (i + PACKET_SIZE) :: more) /\
  (forall i : nat,
     find (buffer ++ data) MARKER = Some i ->
     i + PACKET_SIZE <= List.length (buffer ++ data) ->
     exists more : list bytes,
       fst (reassemble buffer data) =
         slice (buffer ++ data) i (i + PACKET_SIZE) :: more) /\
  Forall is_frame (fst (reassemble_chunks buffer (data :: chunks))) /\
  (exists noise : list bytes,
     List.length noise =
       List.length (fst (reassemble_chunks buffer (data :: chunks))) /\
     buffer ++ List.concat (data :: chunks) =
       weave noise (fst (reassemble_chunks buffer (data :: chunks)))
         ++ snd (reassemble_chunks buffer (data :: chunks))).
Proof.
  split; [|split; [|split]].
  - intros i Hmarker Hshort. unfold reassemble.
    rewrite (extract_packets_short _ Hmarker Hshort).
    split; [reflexivity|]. intros data' Hlong. cbn [snd].
    rewrite (extract_packets_turn _ (find_app _ _ data' Hmarker) Hlong).
    eexists. reflexivity.
  - intros i Hmarker Hlong. unfold reassemble.
    rewrite (extract_packets_turn _ Hmarker Hlong). eexists. reflexivity.
  - rewrite reassemble_chunks_concat. apply extract_packets_frames.
  - rewrite reassemble_chunks_concat. apply extract_packets_weave.
Qed.

(** C9 on a marker that arrives one byte into a 20-byte chunk. *)
Lemma no_partial_frame_no_byte_twice_witness :
  find ([] ++ x07 :: firstn 19 scenario_frame) MARKER = Some 1 /\
  reassemble [] (x07 :: firstn 19 scenario_frame) =
    ([], [] ++ x07 :: firstn 19 scenario_frame).
Proof.
  split; [reflexivity|].
  apply (proj1 (@no_partial_frame_no_byte_twice []
                  (x07 :: firstn 19 scenario_frame) []) 1 eq_refl).
  vm_compute. lia.
Defined.

(** C3, as stated, fails: no cap bounds the buffer kept when no marker is
    found.  For any proposed cap, that many zero bytes arriving in one chunk
    are all kept. *)
Lemma buffer_cap_refuted :
  ~ exists cap : nat,
      forall (self : BLEWorker) (chunks : list bytes) (channel : string),
        let kept := buffer_of (snd (notifications self chunks channel))
                      channel in
        find kept MARKER = None -> List.length kept < cap.
Proof.
  intros [cap H].
  specialize (H BLEWorker_init [repeat x00 cap] "left"%string).
  rewrite notifications_reassemble in H. cbn [snd] in H.
  rewrite buffer_of_set_buffer in H.
  rewrite reassemble_chunks_none in H
    by (cbn; rewrite app_nil_r; apply find_repeat_x00).
  cbn in H. rewrite app_nil_r in H.
  specialize (H (find_repeat_x00 cap)). rewrite repeat_length in H. lia.
Qed.

(** C3, amended.  The buffer is not capped.  When a channel's buffer followed
    by the chunks that arrive holds no marker, the notifications emit nothing
    and drop nothing: the buffer kept is the old buffer followed by all the
    chunks, and its length has grown by their total length. *)
Theorem marker_free_buffer_grows (self : BLEWorker) (chunks : list bytes)
    (channel : string)
    (Hnone : find (buffer_of self channel ++ List.concat chunks) MARKER = None) :
  notifications self chunks channel =
    ([], set_buffer self channel (buffer_of self channel ++ List.concat chunks))
  /\
  List.length (buffer_of (snd (notifications self chunks channel)) channel) =
    List.length (buffer_of self channel) + List.length (List.concat chunks).
Proof.
  rewrite notifications_reassemble, (reassemble_chunks_none _ _ Hnone).
  cbn [fst snd map]. split; [reflexivity|].
  rewrite buffer_of_set_buffer, length_app. reflexivity.
Qed.

(** C3 amended, on three chunks of zero bytes. *)
Lemma marker_free_buffer_grows_witness :
  notifications BLEWorker_init [repeat x00 40; []; repeat x00 60] "right" =
    ([], set_buffer BLEWorker_init "right" (repeat x00 100)) /\
  List.length
    (buffer_of
       (snd (notifications BLEWorker_init [repeat x00 40; []; repeat x00 60]
               "right")) "right") = 100.
Proof.
  apply (@marker_free_buffer_grows BLEWorker_init
           [repeat x00 40; []; repeat x00 60] "right").
  vm_compute. reflexivity.
Defined.

(* ===================================================================== *)
(** * Decoding: the properties *)
(* ===================================================================== *)

(** C2, as stated, fails: a packet whose length is not 36 can decode.  A
    35-byte packet of zeros has every offset the decoder reads and yields a
    sample. *)
Lemma decode_fails_iff_not_36_refuted :
  ~ forall (packet : bytes) (channel : string),
      is_log_message (process_long_packet packet channel) = true <->
      List.length packet <> 36.
Proof.
  intros H.
  destruct (H (repeat x00 35) "left"%string) as [_ Hfail].
  assert (Hlen : List.length (repeat x00 35) <> 36)
    by (rewrite repeat_length; lia).
  specialize (Hfail Hlen). vm_compute in Hfail. discriminate Hfail.
Qed.

(** C2, amended.  The decoder fails, reporting the error on the log signal
    and emitting no sample, if and only if the packet has fewer than 35
    bytes (offset 34, the highest it reads, is then out of range); the packet
    length is not otherwise checked.  For every 36-byte frame it succeeds and
    emits a sample. *)
Theorem decode_fails_iff_short (packet : bytes) (channel : string) :
  (is_log_message (process_long_packet packet channel) = true <->
     List.length packet < 35) /\
  (List.length packet < 35 ->
     process_long_packet packet channel =
       log_message "Error processing packet: list index out of range") /\
  (List.length packet = 36 ->
     exists (stress attention : Q) (signal_quality : Z),
       process_long_packet packet channel =
         data_received channel stress attention signal_quality).
Proof.
  split; [|split].
  - destruct (Nat.lt_ge_cases (List.length packet) 35) as [Hlt|Hge].
    + rewrite (@process_long_packet_short packet channel Hlt). simpl. tauto.
    + rewrite (@process_long_packet_ok packet channel Hge). simpl.
      split; [discriminate | lia].
  - apply process_long_packet_short.
  - intros Hlen. rewrite process_long_packet_ok by lia.
    do 3 eexists. reflexivity.
Qed.

(** C2 amended, on a 34-byte packet. *)
Lemma decode_fails_iff_short_witness :
  List.length (repeat xff 34) < 35 /\
  process_long_packet (repeat xff 34) "left" =
    log_message "Error processing packet: list index out of range".
Proof.
  assert (Hlen : List.length (repeat xff 34) < 35) by (vm_compute; lia).
  split; [exact Hlen|].
  apply (proj1 (proj2 (decode_fails_iff_short (repeat xff 34) "left")) Hlen).
Defined.

(** C6. Field layout.  For every 36-byte frame the decoder emits
    signalQuality = byte 4, attentionValue = byte 34 and stressValue =
    100 - byte 32, each byte read as an unsigned value between 0 and 255 and
    the difference left as it is, so that it is negative as soon as byte 32
    exceeds 100.  A frame with [0x00] at offset 4, [0x1E] at offset 32 and
    [0x0A] at offset 34 decodes to stress 70, attention 10 and quality 0, and
    70 is categorized as High. *)
Theorem decode_layout (packet : bytes) (channel : string)
    (Hlen : List.length packet = 36) :
  process_long_packet packet channel =
    data_received channel (inject_Z (100 - byte_at packet 32))
      (inject_Z (byte_at packet 34)) (byte_at packet 4) /\
  (0 <= byte_at packet 4 <= 255)%Z /\
  (0 <= byte_at packet 32 <= 255)%Z /\
  (0 <= byte_at packet 34 <= 255)%Z /\
  ((100 < byte_at packet 32)%Z ->
     (inject_Z (100 - byte_at packet 32) < 0)%Q) /\
  (nth 4 packet x00 = x00 -> nth 32 packet x00 = x1e ->
   nth 34 packet x00 = x0a ->
     process_long_packet packet channel = data_received channel 70 10 0 /\
     categorize_stress_5 (Some 70%Q) = "High"%string).
Proof.
  assert (Hok := @process_long_packet_ok packet channel).
  rewrite Hlen in Hok. specialize (Hok ltac:(lia)).
  split; [exact Hok|].
  repeat (split; [apply byte_at_range|]).
  split.
  - intros Hneg. change 0%Q with (inject_Z 0). rewrite <- Zlt_Qlt. lia.
  - intros H4 H32 H34. rewrite Hok. unfold byte_at.
    rewrite H4, H32, H34. split; reflexivity.
Qed.

(** C6 on [scenario_frame], and on a frame whose meditation byte is 255. *)
Lemma decode_layout_witness :
  List.length scenario_frame = 36 /\
  process_long_packet scenario_frame "left" = data_received "left" 70 10 0 /\
  categorize_stress_5 (Some 70%Q) = "High"%string.
Proof.
  split; [reflexivity|].
  apply (proj2 (proj2 (proj2 (proj2 (proj2
    (@decode_layout scenario_frame "left" eq_refl))))));
    reflexivity.
Defined.

(** C10. The decoder reads offsets 4, 32 and 34 only.  Two packets of at
    least 35 bytes that agree at these three offsets make the decoder emit the
    same signal on the same channel, whatever their other bytes, the three
    marker bytes included, and whatever their lengths. *)
Theorem decode_reads_three_offsets (packet packet' : bytes) (channel : string)
    (Hlen : 35 <= List.length packet) (Hlen' : 35 <= List.length packet')
    (H4 : nth 4 packet x00 = nth 4 packet' x00)
    (H32 : nth 32 packet x00 = nth 32 packet' x00)
    (H34 : nth 34 packet x00 = nth 34 packet' x00) :
  process_long_packet packet channel = process_long_packet packet' channel.
Proof.
  rewrite !process_long_packet_ok by assumption. unfold byte_at.
  rewrite H4, H32, H34. reflexivity.
Qed.

(** C10 on [scenario_frame] and a 40-byte packet without the marker. *)
Lemma decode_reads_three_offsets_witness :
  process_long_packet scenario_frame "right" =
  process_long_packet
    ([xff; xff; xff; xff; x00] ++ repeat x55 27
       ++ [x1e; x77; x0a; x01; x02; x03; x04; x05]) "right".
Proof.
  apply decode_reads_three_offsets;
    try reflexivity; vm_compute; lia.
Defined.

(* ===================================================================== *)
(** * Aggregation *)
(* ===================================================================== *)

Lemma Qltb_lt (x y : Q) : Qltb x y = true <-> (x < y)%Q.
Proof. apply Z.ltb_lt. Qed.

Lemma Qltb_ge (x y : Q) : Qltb x y = false <-> (y <= x)%Q.
Proof. apply Z.ltb_ge. Qed.

(** Decide every threshold test of [categorize_stress_5] in the goal. *)
Ltac thresholds :=
  unfold categorize_stress_5;
  repeat match goal with
         | |- context [Qltb ?a ?b] =>
             let E := fresh "E" in
             destruct (Qltb a b) eqn:E;
             [apply Qltb_lt in E | apply Qltb_ge in E]
         end;
  try reflexivity; exfalso; lra.

Lemma deque_append_length (d : deque) (x : Q) :
  List.length (items d) <= maxlen d ->
  List.length (items (deque_append d x)) <= maxlen d.
Proof.
  intros H. unfold deque_append. cbn [items maxlen].
  destruct (maxlen d <? List.length (items d ++ [x])) eqn:E.
  - destruct (items d); simpl in *; [lia|]. rewrite length_app. simpl. lia.
  - apply Nat.ltb_ge in E. exact E.
Qed.

(** A full deque drops its oldest element. *)
Lemma deque_append_full (d : deque) (x oldest : Q) (rest : list Q) :
  items d = oldest :: rest -> List.length (items d) = maxlen d ->
  items (deque_append d x) = rest ++ [x].
Proof.
  intros Hitems Hfull. unfold deque_append. cbn [items].
  replace (maxlen d <? List.length (items d ++ [x])) with true.
  - rewrite Hitems. reflexivity.
  - symmetry. apply Nat.ltb_lt. rewrite length_app. simpl. lia.
Qed.

Lemma deque_append_room (d : deque) (x : Q) :
  List.length (items d) < maxlen d -> items (deque_append d x) = items d ++ [x].
Proof.
  intros H. unfold deque_append. cbn [items].
  replace (maxlen d <? List.length (items d ++ [x])) with false; [reflexivity|].
  symmetry. apply Nat.ltb_ge. rewrite length_app. simpl. lia.
Qed.

Lemma update_interval_channel_snd (d : deque) (buffer : list Q) :
  snd (update_interval_channel d buffer) = [].
Proof. destruct buffer; reflexivity. Qed.

Lemma update_interval_channel_nonempty (d : deque) (buffer : list Q) :
  buffer <> [] ->
  update_interval_channel d buffer = (deque_append d (mean buffer), []).
Proof. destruct buffer; [congruence | reflexivity]. Qed.

Lemma update_interval_channel_length (d : deque) (buffer : list Q) :
  List.length (items d) <= maxlen d ->
  List.length (items (fst (update_interval_channel d buffer))) <= maxlen d /\
  maxlen (fst (update_interval_channel d buffer)) = maxlen d.
Proof.
  intros H. destruct buffer; [split; [exact H | reflexivity]|].
  split; [apply deque_append_length, H | reflexivity].
Qed.

(** The invariant of the data buffers. *)
Lemma handle_new_data_capacity (self : MyApp) (channel : string)
    (stress attention : Q) (signal_quality : Z) :
  deques_as_created self /\ within_capacity self ->
  deques_as_created (handle_new_data self channel stress attention
                       signal_quality) /\
  within_capacity (handle_new_data self channel stress attention
                     signal_quality).
Proof.
  intros [(M1 & M2 & M3 & M4) (L1 & L2 & L3 & L4)].
  pose proof (@deque_append_length (stress_values_left self) stress) as A1.
  pose proof (@deque_append_length (stress_values_right self) stress) as A2.
  rewrite M1 in A1. rewrite M2 in A2.
  unfold handle_new_data, deques_as_created, within_capacity.
  destruct (String.eqb channel "left"), (signal_quality =? 0)%Z;
    cbn [stress_values_left stress_values_right interval_stress_left
         interval_stress_right]; cbn [maxlen deque_append]; auto 10.
Qed.

Lemma update_interval_capacity (self : MyApp) :
  deques_as_created self /\ within_capacity self ->
  deques_as_created (snd (update_interval self)) /\
  within_capacity (snd (update_interval self)).
Proof.
  intros [(M1 & M2 & M3 & M4) (L1 & L2 & L3 & L4)].
  destruct (@update_interval_channel_length (interval_stress_left self)
              (interval_stress_buffer_left self)) as [A1 B1]; [lia|].
  destruct (@update_interval_channel_length (interval_stress_right self)
              (interval_stress_buffer_right self)) as [A2 B2]; [lia|].
  unfold update_interval, deques_as_created, within_capacity.
  cbn [snd stress_values_left stress_values_right interval_stress_left
       interval_stress_right].
  rewrite B1, B2. rewrite M3 in A1. rewrite M4 in A2. auto 10.
Qed.

Lemma run_capacity (events : list event) (self : MyApp) :
  deques_as_created self /\ within_capacity self ->
  deques_as_created (run self events) /\ within_capacity (run self events).
Proof.
  revert self. induction events as [|e events IH]; intros self H; [exact H|].
  apply IH. destruct e; [apply handle_new_data_capacity, H|].
  apply update_interval_capacity, H.
Qed.

Lemma MyApp_init_capacity :
  deques_as_created MyApp_init /\ within_capacity MyApp_init.
Proof. unfold deques_as_created, within_capacity. simpl. lia. Qed.

(* ===================================================================== *)
(** * Aggregation: the properties *)
(* ===================================================================== *)

(** C4. Poor-quality samples are shown but not aggregated.  Handling a sample
    whose signal quality is not 0 leaves both channels' moving windows,
    interval buffers and interval histories exactly as they were, and sets
    the signal-quality label of the sample's channel (and no other label) to
    the text for that quality, which quotes the quality.  A sample of quality
    0 is appended to the moving window and to the interval buffer of its
    channel. *)
Theorem poor_quality_not_aggregated (self : MyApp) (channel : string)
    (stress attention : Q) (signal_quality : Z)
    (Hpoor : signal_quality <> 0%Z) :
  let self' := handle_new_data self channel stress attention signal_quality in
  let good := handle_new_data self channel stress attention 0 in
  (stress_values_left self' = stress_values_left self /\
   stress_values_right self' = stress_values_right self /\
   interval_stress_buffer_left self' = interval_stress_buffer_left self /\
   interval_stress_buffer_right self' = interval_stress_buffer_right self /\
   interval_stress_left self' = interval_stress_left self /\
   interval_stress_right self' = interval_stress_right self) /\
  (channel = "left"%string ->
     signal_quality_label_left self' =
       update_signal_quality (signal_quality_label_left self) signal_quality
         "Left" /\
     signal_quality_label_right self' = signal_quality_label_right self) /\
  (channel <> "left"%string ->
     signal_quality_label_right self' =
       update_signal_quality (signal_quality_label_right self) signal_quality
         "Right" /\
     signal_quality_label_left self' = signal_quality_label_left self) /\
  (forall (label : QLabel) (side : string),
     text (update_signal_quality label signal_quality side) =
       (if ((1 <=? signal_quality) && (signal_quality <=? 50))%Z
        then side ++ " Signal Quality: Poor (" ++ str_int signal_quality ++ ")"
        else side ++ " Signal Quality: Very Poor ("
               ++ str_int signal_quality ++ ")")%string) /\
  (channel = "left"%string ->
     stress_values_left good = deque_append (stress_values_left self) stress /\
     interval_stress_buffer_left good =
       interval_stress_buffer_left self ++ [stress]) /\
  (channel <> "left"%string ->
     stress_values_right good =
       deque_append (stress_values_right self) stress /\
     interval_stress_buffer_right good =
       interval_stress_buffer_right self ++ [stress]).
Proof.
  apply Z.eqb_neq in Hpoor.
  cbv zeta. unfold handle_new_data, update_signal_quality. rewrite Hpoor.
  change (0 =? 0)%Z with true. cbv iota.
  destruct (String.eqb_spec channel "left") as [Hl|Hr];
    cbn [stress_values_left stress_values_right interval_stress_buffer_left
         interval_stress_buffer_right interval_stress_left
         interval_stress_right signal_quality_label_left
         signal_quality_label_right];
    repeat split; try reflexivity; try congruence;
    destruct ((1 <=? signal_quality) && (signal_quality <=? 50))%Z;
    reflexivity.
Qed.

(** C4 on a sample of quality 51 arriving on the left channel of a fresh
    application. *)
Lemma poor_quality_not_aggregated_witness :
  stress_values_left (handle_new_data MyApp_init "left" 70 10 51) =
    stress_values_left MyApp_init /\
  interval_stress_buffer_left (handle_new_data MyApp_init "left" 70 10 51) =
    interval_stress_buffer_left MyApp_init /\
  text (signal_quality_label_left (handle_new_data MyApp_init "left" 70 10 51))
    = "Left Signal Quality: Very Poor (51)"%string.
Proof.
  assert (Hpoor : 51%Z <> 0%Z) by lia.
  pose proof (@poor_quality_not_aggregated MyApp_init "left" 70 10 51 Hpoor)
    as (Hsame & Hleft & _).
  destruct Hsame as (Hw & _ & Hb & _).
  destruct (Hleft eq_refl) as [Hlabel _].
  split; [exact Hw|]. split; [exact Hb|].
  rewrite Hlabel. reflexivity.
Defined.

(** C5, as stated, fails in one point: the call does not return the mean.
    [update_interval] has no [return] statement; with a sample waiting in the
    left interval buffer it still evaluates to [None]. *)
Lemma rollup_returns_mean_refuted :
  ~ forall self : MyApp,
      interval_stress_buffer_left self <> [] ->
      fst (update_interval self) =
        Some (mean (interval_stress_buffer_left self)).
Proof.
  intros H.
  specialize (H (handle_new_data MyApp_init "left" 70 10 0)).
  simpl in H. discriminate H. discriminate.
Qed.

(** C5, amended.  [update_interval] returns nothing in every case.  For each
    channel whose interval buffer is non-empty it appends the arithmetic mean
    of the buffer to that channel's interval history, dropping the oldest
    entry when the history already holds 5, and empties the buffer; a channel
    whose buffer is empty keeps its history.  Moving windows and labels are
    untouched.  A second call right after the first changes nothing, so it
    adds no history entry. *)
Theorem rollup_appends_mean (self : MyApp) :
  let self' := snd (update_interval self) in
  fst (update_interval self) = None /\
  (interval_stress_buffer_left self <> [] ->
     interval_stress_left self' =
       deque_append (interval_stress_left self)
         (mean (interval_stress_buffer_left self)) /\
     denoise_signal (interval_stress_buffer_left self) =
       Some (mean (interval_stress_buffer_left self))) /\
  (interval_stress_buffer_right self <> [] ->
     interval_stress_right self' =
       deque_append (interval_stress_right self)
         (mean (interval_stress_buffer_right self)) /\
     denoise_signal (interval_stress_buffer_right self) =
       Some (mean (interval_stress_buffer_right self))) /\
  (interval_stress_buffer_left self = [] ->
     interval_stress_left self' = interval_stress_left self) /\
  (interval_stress_buffer_right self = [] ->
     interval_stress_right self' = interval_stress_right self) /\
  interval_stress_buffer_left self' = [] /\
  interval_stress_buffer_right self' = [] /\
  (forall (d : deque) (x oldest : Q) (rest : list Q),
     items d = oldest :: rest -> List.length (items d) = maxlen d ->
     items (deque_append d x) = rest ++ [x]) /\
  (forall (d : deque) (x : Q),
     List.length (items d) < maxlen d ->
     items (deque_append d x) = items d ++ [x]) /\
  (stress_values_left self' = stress_values_left self /\
   stress_values_right self' = stress_values_right self /\
   signal_quality_label_left self' = signal_quality_label_left self /\
   signal_quality_label_right self' = signal_quality_label_right self) /\
  snd (update_interval self') = self'.
Proof.
  cbv zeta. unfold update_interval.
  cbn [fst snd interval_stress_left interval_stress_right
       interval_stress_buffer_left interval_stress_buffer_right
       stress_values_left stress_values_right signal_quality_label_left
       signal_quality_label_right].
  rewrite !update_interval_channel_snd.
  split; [reflexivity|].
  split.
  { intros Hne. rewrite (update_interval_channel_nonempty _ Hne).
    split; [reflexivity|].
    destruct (interval_stress_buffer_left self); [congruence | reflexivity]. }
  split.
  { intros Hne. rewrite (update_interval_channel_nonempty _ Hne).
    split; [reflexivity|].
    destruct (interval_stress_buffer_right self); [congruence | reflexivity]. }
  split; [intros ->; reflexivity|].
  split; [intros ->; reflexivity|].
  split; [reflexivity|]. split; [reflexivity|].
  split; [exact deque_append_full|]. split; [exact deque_append_room|].
  split; [repeat split|]. reflexivity.
Qed.

(** C5 amended, on two good left samples, 70 and 71, followed by two calls. *)
Lemma rollup_appends_mean_witness :
  let self := handle_new_data (handle_new_data MyApp_init "left" 70 10 0)
                "left" 71 10 0 in
  interval_stress_buffer_left self <> [] /\
  items (interval_stress_left (snd (update_interval self))) = [(141 # 2)%Q] /\
  items (interval_stress_left
           (snd (update_interval (snd (update_interval self))))) =
    [(141 # 2)%Q].
Proof.
  cbv zeta.
  set (self := handle_new_data (handle_new_data MyApp_init "left" 70 10 0)
                 "left" 71 10 0).
  assert (Hne : interval_stress_buffer_left self <> []) by discriminate.
  pose proof (rollup_appends_mean self) as (_ & Hleft & H).
  destruct (Hleft Hne) as [Hhist _].
  do 8 destruct H as [_ H].
  split; [exact Hne|]. rewrite H. split; rewrite Hhist; reflexivity.
Defined.

(** C7. The bands of [categorize_stress_5]: "No Data" for [None]; "Very Low"
    below 20; "Low" from 20 up to but not 40; "Moderate" from 40 up to but not
    60; "High" from 60 up to but not 80; "Very High" from 80 on.  The value is
    not clamped first: a negative value is "Very Low" and a value above 100 is
    "Very High". *)
Theorem categorize_bands (value : Q) :
  categorize_stress_5 None = "No Data"%string /\
  ((value < 20)%Q -> categorize_stress_5 (Some value) = "Very Low"%string) /\
  ((20 <= value)%Q -> (value < 40)%Q ->
     categorize_stress_5 (Some value) = "Low"%string) /\
  ((40 <= value)%Q -> (value < 60)%Q ->
     categorize_stress_5 (Some value) = "Moderate"%string) /\
  ((60 <= value)%Q -> (value < 80)%Q ->
     categorize_stress_5 (Some value) = "High"%string) /\
  ((80 <= value)%Q -> categorize_stress_5 (Some value) = "Very High"%string) /\
  ((value < 0)%Q -> categorize_stress_5 (Some value) = "Very Low"%string) /\
  ((100 < value)%Q -> categorize_stress_5 (Some value) = "Very High"%string).
Proof.
  split; [reflexivity|].
  repeat split; intros; thresholds.
Qed.

(** C7 on the mean 141/2, which lies between 60 and 80. *)
Lemma categorize_bands_witness :
  (60 <= 141 # 2)%Q /\ (141 # 2 < 80)%Q /\
  categorize_stress_5 (Some (141 # 2)%Q) = "High"%string.
Proof.
  assert (Hlo : (60 <= 141 # 2)%Q) by (unfold Qle; simpl; lia).
  assert (Hhi : (141 # 2 < 80)%Q) by (unfold Qlt; simpl; lia).
  split; [exact Hlo|]. split; [exact Hhi|].
  apply (proj1 (proj2 (proj2 (proj2 (proj2
    (categorize_bands (141 # 2)%Q))))) Hlo Hhi).
Defined.

(** C8. Bounded capacity.  After any sequence of samples and interval
    timeouts, on either channel and in any order, starting from the freshly
    created application, each moving window holds at most 15 values and each
    interval history at most 5.  A good sample that arrives when the window of
    its channel is full, and a timeout that finds some history full and its
    interval buffer non-empty, drop the oldest element and put the new one
    last. *)
Theorem bounded_capacity (events : list event) :
  let self := run MyApp_init events in
  within_capacity self /\
  (forall (stress attention oldest : Q) (rest : list Q),
     items (stress_values_left self) = oldest :: rest ->
     List.length (items (stress_values_left self)) = 15 ->
     items (stress_values_left
              (step self (NewData "left" stress attention 0))) =
       rest ++ [stress]) /\
  (forall (stress attention oldest : Q) (rest : list Q),
     items (stress_values_right self) = oldest :: rest ->
     List.length (items (stress_values_right self)) = 15 ->
     items (stress_values_right
              (step self (NewData "right" stress attention 0))) =
       rest ++ [stress]) /\
  (forall (oldest : Q) (rest : list Q),
     items (interval_stress_left self) = oldest :: rest ->
     List.length (items (interval_stress_left self)) = 5 ->
     interval_stress_buffer_left self <> [] ->
     items (interval_stress_left (step self IntervalTimeout)) =
       rest ++ [mean (interval_stress_buffer_left self)]) /\
  (forall (oldest : Q) (rest : list Q),
     items (interval_stress_right self) = oldest :: rest ->
     List.length (items (interval_stress_right self)) = 5 ->
     interval_stress_buffer_right self <> [] ->
     items (interval_stress_right (step self IntervalTimeout)) =
       rest ++ [mean (interval_stress_buffer_right self)]).
Proof.
  cbv zeta.
  destruct (run_capacity events MyApp_init_capacity)
    as [(M1 & M2 & M3 & M4) Hcap].
  split; [exact Hcap|].
  split; [|split; [|split]].
  - intros stress attention oldest rest Hitems Hfull.
    apply (deque_append_full _ _ Hitems). rewrite M1. exact Hfull.
  - intros stress attention oldest rest Hitems Hfull.
    apply (deque_append_full _ _ Hitems). rewrite M2. exact Hfull.
  - intros oldest rest Hitems Hfull Hne. cbn [step update_interval snd].
    cbn [interval_stress_left].
    rewrite (update_interval_channel_nonempty _ Hne). cbn [fst].
    apply (deque_append_full _ _ Hitems). rewrite M3. exact Hfull.
  - intros oldest rest Hitems Hfull Hne. cbn [step update_interval snd].
    cbn [interval_stress_right].
    rewrite (update_interval_channel_nonempty _ Hne). cbn [fst].
    apply (deque_append_full _ _ Hitems). rewrite M4. exact Hfull.
Qed.

(** C8 on fifteen good left samples of stress 1 followed by one of stress
    2. *)
Lemma bounded_capacity_witness :
  items (stress_values_left
           (step (run MyApp_init (repeat (NewData "left" 1 10 0) 15))
              (NewData "left" 2 10 0))) =
    repeat 1%Q 14 ++ [2%Q].
Proof.
  apply (proj1 (proj2 (bounded_capacity (repeat (NewData "left" 1 10 0) 15)))
           2%Q 10%Q 1%Q (repeat 1%Q 14)); reflexivity.
Defined.

(* ===================================================================== *)
(** * Reassembly: resynchronisation, accounting, channels *)
(* ===================================================================== *)

Lemma startswith_marker_inv (buffer : bytes) :
  startswith buffer MARKER = true ->
  exists rest : bytes, buffer = xaa :: xaa :: x20 :: rest.
Proof.
  destruct buffer as [|a [|b [|c rest]]]; simpl; try discriminate;
    try (rewrite ?andb_false_r; discriminate).
  intros H. apply andb_prop in H as [Ha H]. apply andb_prop in H as [Hb H].
  apply andb_prop in H as [Hc _].
  apply byte_dec_bl in Ha, Hb, Hc. subst. exists rest. reflexivity.
Qed.

(** The marker cannot straddle the end of marker-free bytes and the start of
    a marker: the first marker of the whole is the one that follows. *)
Lemma find_after_noise (noise rest : bytes) :
  marker_free noise -> startswith rest MARKER = true ->
  find (noise ++ rest) MARKER = Some (List.length noise).
Proof.
  intros Hfree Hstart. induction noise as [|n noise IH].
  - apply find_startswith_0, Hstart.
  - unfold marker_free in Hfree. cbn [find] in Hfree.
    destruct (startswith (n :: noise) MARKER) eqn:E; [discriminate|].
    destruct (find noise MARKER) eqn:F; [discriminate|].
    assert (Hhead : startswith ((n :: noise) ++ rest) MARKER = false).
    { destruct noise as [|b [|c noise]].
      - destruct (startswith_marker_inv _ Hstart) as [r ->]. simpl.
        rewrite !andb_false_r. reflexivity.
      - destruct (startswith_marker_inv _ Hstart) as [r ->]. simpl.
        rewrite !andb_false_r. reflexivity.
      - apply startswith_app_false; [simpl; lia | exact E]. }
    change ((n :: noise) ++ rest) with (n :: (noise ++ rest)) in *.
    cbn [find]. rewrite Hhead, (IH F). reflexivity.
Qed.

(** Marker-free bytes before a frame are skipped and the frame is the first
    packet. *)
Lemma extract_packets_noise_frame (noise frame rest : bytes) :
  marker_free noise -> is_frame frame ->
  extract_packets (noise ++ frame ++ rest) =
  (frame :: fst (extract_packets rest), snd (extract_packets rest)).
Proof.
  intros Hfree [Hlen Hstart].
  assert (Hfind : find (noise ++ frame ++ rest) MARKER
                  = Some (List.length noise))
    by (apply find_after_noise; [exact Hfree | apply startswith_app, Hstart]).
  rewrite (extract_packets_turn _ Hfind)
    by (rewrite !length_app; lia).
  assert (Hslice : slice (noise ++ frame ++ rest) (List.length noise)
                     (List.length noise + PACKET_SIZE) = frame).
  { unfold slice. rewrite skipn_app, Nat.sub_diag, skipn_all. simpl.
    replace (List.length noise + PACKET_SIZE - List.length noise)
      with (List.length frame) by lia.
    rewrite firstn_app, Nat.sub_diag, firstn_all. simpl.
    apply app_nil_r. }
  assert (Hskip : skipn (List.length noise + PACKET_SIZE)
                    (noise ++ frame ++ rest) = rest).
  { rewrite <- Hlen, Nat.add_comm, <- skipn_skipn.
    rewrite skipn_app, Nat.sub_diag, skipn_all. cbn [skipn app].
    rewrite skipn_app, Nat.sub_diag, skipn_all. reflexivity. }
  rewrite Hslice, Hskip. reflexivity.
Qed.

Lemma extract_packets_settled (buffer : bytes) :
  settled buffer -> extract_packets buffer = ([], buffer).
Proof.
  intros [Hnone | (i & Hfind & Hshort)].
  - apply extract_packets_none, Hnone.
  - apply (extract_packets_short _ Hfind Hshort).
Qed.

Lemma extract_packets_leaves_settled (buffer : bytes) :
  settled (snd (extract_packets buffer)).
Proof.
  induction buffer as [buffer H | buffer i H Hlen | buffer i H Hlen IH]
    using extract_packets_induction.
  - rewrite (extract_packets_none _ H). left. exact H.
  - rewrite (extract_packets_short _ H Hlen). right. exists i. split; assumption.
  - rewrite (extract_packets_turn _ H Hlen). exact IH.
Qed.

Lemma extract_packets_woven (noise frames : list bytes) (tail : bytes) :
  List.length noise = List.length frames ->
  Forall marker_free noise -> Forall is_frame frames -> settled tail ->
  extract_packets (weave noise frames ++ tail) = (frames, tail).
Proof.
  intros Hlen Hnoise. revert frames Hlen.
  induction Hnoise as [|n noise Hn Hnoise IH]; intros frames Hlen Hframes Htail.
  - destruct frames; [|discriminate]. apply extract_packets_settled, Htail.
  - destruct frames as [|f frames]; [discriminate|].
    inversion Hframes as [|? ? Hf Hframes']; subst.
    cbn [weave]. rewrite <- !app_assoc.
    rewrite (extract_packets_noise_frame _ Hn Hf).
    rewrite IH by (try assumption; simpl in Hlen; lia). reflexivity.
Qed.

Lemma extract_packets_accounting (buffer : bytes) :
  PACKET_SIZE * List.length (fst (extract_packets buffer))
    + List.length (snd (extract_packets buffer)) <= List.length buffer /\
  exists consumed : bytes, buffer = consumed ++ snd (extract_packets buffer).
Proof.
  induction buffer as [buffer H | buffer i H Hlen | buffer i H Hlen IH]
    using extract_packets_induction.
  - rewrite (extract_packets_none _ H). simpl. split; [lia|]. exists [].
    reflexivity.
  - rewrite (extract_packets_short _ H Hlen). simpl. split; [lia|]. exists [].
    reflexivity.
  - rewrite (extract_packets_turn _ H Hlen). cbn [fst snd List.length].
    destruct IH as [IHlen (consumed & IHc)]. rewrite length_skipn in IHlen.
    split; [unfold PACKET_SIZE in *; lia|].
    exists (firstn (i + PACKET_SIZE) buffer ++ consumed).
    rewrite <- app_assoc, <- IHc. symmetry. apply firstn_skipn.
Qed.

(** X1. Frames are recovered across noise and chunking.  When the bytes that
    arrive on a channel with an empty buffer are frames, each preceded by
    marker-free bytes, followed by a tail on which no turn of the loop is
    possible, then however the bytes are cut into notifications, exactly these
    frames are handed to the decoder, in order, and the tail is the buffer
    kept. *)
Theorem frames_recovered (noise frames : list bytes) (tail data : bytes)
    (chunks : list bytes)
    (Hcount : List.length noise = List.length frames)
    (Hnoise : Forall marker_free noise)
    (Hframes : Forall is_frame frames)
    (Htail : settled tail)
    (Hstream : List.concat (data :: chunks) = weave noise frames ++ tail) :
  reassemble_chunks [] (data :: chunks) = (frames, tail) /\
  forall (self : BLEWorker) (channel : string),
    buffer_of self channel = [] ->
    notifications self (data :: chunks) channel =
      (map (fun packet => process_long_packet packet channel) frames,
       set_buffer self channel tail).
Proof.
  assert (H : reassemble_chunks [] (data :: chunks) = (frames, tail)).
  { rewrite reassemble_chunks_concat. unfold reassemble. cbn [app].
    rewrite Hstream. apply extract_packets_woven; assumption. }
  split; [exact H|]. intros self channel Hempty.
  rewrite notifications_reassemble, Hempty, H. reflexivity.
Qed.

(** X1 on two frames, two noise bytes before the first, a tail of two marker
    bytes, cut into three notifications inside the frames. *)
Lemma frames_recovered_witness :
  reassemble_chunks []
    [x07 :: xaa :: firstn 10 scenario_frame;
     skipn 10 scenario_frame ++ firstn 5 scenario_frame;
     skipn 5 scenario_frame ++ [xaa; xaa]] =
  ([scenario_frame; scenario_frame], [xaa; xaa]).
Proof.
  apply (@frames_recovered [[x07; xaa]; []] [scenario_frame; scenario_frame]
           [xaa; xaa] (x07 :: xaa :: firstn 10 scenario_frame)
           [skipn 10 scenario_frame ++ firstn 5 scenario_frame;
            skipn 5 scenario_frame ++ [xaa; xaa]]).
  - reflexivity.
  - repeat constructor.
  - repeat constructor.
  - left. reflexivity.
  - reflexivity.
Defined.

(** X2. The buffer a notification stores back never holds a complete frame:
    it has no marker, or fewer than 36 bytes from its first marker on.  A
    further notification that carries no bytes therefore emits nothing and
    leaves the worker as it is. *)
Theorem kept_buffer_settled (self : BLEWorker) (data : bytes)
    (channel : string) :
  let self' := snd (notification_handler self data channel) in
  settled (buffer_of self' channel) /\
  notification_handler self' [] channel = ([], self').
Proof.
  cbv zeta. unfold notification_handler, reassemble. cbn [fst snd].
  rewrite buffer_of_set_buffer, app_nil_r, extract_packets_rest.
  split; [apply extract_packets_leaves_settled|].
  cbn [fst snd map]. rewrite set_buffer_set_buffer. reflexivity.
Qed.

(** X3. Byte accounting of a notification.  The signals emitted, at 36 bytes
    each, and the buffer kept together never exceed the old buffer plus the
    new data, and the buffer kept is a suffix of the old buffer followed by
    the new data: nothing is reordered, duplicated or invented. *)
Theorem notification_accounting (self : BLEWorker) (data : bytes)
    (channel : string) :
  let r := notification_handler self data channel in
  PACKET_SIZE * List.length (fst r) + List.length (buffer_of (snd r) channel)
    <= List.length (buffer_of self channel) + List.length data /\
  exists consumed : bytes,
    buffer_of self channel ++ data = consumed ++ buffer_of (snd r) channel.
Proof.
  cbv zeta. unfold notification_handler, reassemble. cbn [fst snd].
  rewrite buffer_of_set_buffer, length_map, <- length_app.
  apply extract_packets_accounting.
Qed.

Lemma notification_handler_decoded (self : BLEWorker) (data : bytes)
    (channel : string) :
  Forall (fun s => decoded_sample channel s /\ is_log_message s = false)
    (fst (notification_handler self data channel)).
Proof.
  unfold notification_handler, reassemble. cbn [fst].
  pose proof (extract_packets_frames (buffer_of self channel ++ data)) as H.
  induction H as [|packet packets [Hlen _] _ IH]; [constructor|].
  cbn [map]. unfold PACKET_SIZE in Hlen.
  rewrite process_long_packet_ok by lia.
  constructor; [|exact IH]. split; [|reflexivity].
  exists (100 - byte_at packet 32)%Z, (byte_at packet 34), (byte_at packet 4).
  pose proof (byte_at_range packet 32). pose proof (byte_at_range packet 34).
  pose proof (byte_at_range packet 4).
  repeat split; lia.
Qed.

(** X4. The decoder's error path is not reachable from the reassembler.  Every
    signal a notification emits is a decoded sample of that notification's
    channel, never the error report, with stress between -155 and 100 and
    attention and signal quality between 0 and 255. *)
Theorem notification_emits_samples_only (self : BLEWorker) (data : bytes)
    (channel : string) :
  Forall (decoded_sample channel)
    (fst (notification_handler self data channel)) /\
  Forall (fun s => is_log_message s = false)
    (fst (notification_handler self data channel)).
Proof.
  pose proof (notification_handler_decoded self data channel) as H.
  split; (eapply Forall_impl; [|exact H]); intros s Hs; apply Hs.
Qed.

(** X5. The two channels do not share reassembly state.  A notification on
    "left" leaves the buffer of any other channel alone and the other way
    round, and a notification on "left" and one on another channel give the
    same signals and the same worker in either order. *)
Theorem channels_independent (self : BLEWorker) (data_l data_r : bytes)
    (channel : string) (Hother : channel <> "left"%string) :
  let l := notification_handler self data_l "left" in
  let r := notification_handler self data_r channel in
  buffer_of (snd l) channel = buffer_of self channel /\
  buffer_of (snd r) "left" = buffer_of self "left" /\
  fst (notification_handler (snd l) data_r channel) = fst r /\
  fst (notification_handler (snd r) data_l "left") = fst l /\
  snd (notification_handler (snd l) data_r channel) =
    snd (notification_handler (snd r) data_l "left").
Proof.
  apply String.eqb_neq in Hother.
  cbv zeta. unfold notification_handler, buffer_of, set_buffer.
  cbn [fst snd]. rewrite Hother. change (String.eqb "left" "left") with true.
  cbn [buffer_left buffer_right]. repeat split.
Qed.

(** X5 on the channel "right". *)
Lemma channels_independent_witness :
  buffer_of (snd (notification_handler BLEWorker_init scenario_frame "left"))
    "right" = buffer_of BLEWorker_init "right".
Proof.
  assert (Hother : "right"%string <> "left"%string) by discriminate.
  apply (@channels_independent BLEWorker_init scenario_frame [] "right"
           Hother).
Defined.

(** X6. Hexadecimal round trip of the decoder.  Formatting a byte with
    [02X] gives exactly two characters, and parsing them in base 16 gives back
    the byte's unsigned value, for each of the 256 bytes, so the detour
    through hexadecimal text never raises and never changes a value. *)
Theorem hex_round_trip (b : byte) :
  String.length (format_02X b) = 2 /\
  int_16 (format_02X b) = Py.Ok (Z.of_N (Byte.to_N b)) /\
  (0 <= Z.of_N (Byte.to_N b) <= 255)%Z.
Proof.
  split; [reflexivity|]. split; [apply int_16_format_02X|].
  pose proof (Byte.to_N_bounded b). lia.
Qed.

(* ===================================================================== *)
(** * Aggregation: contents of the windows and histories *)
(* ===================================================================== *)

Lemma lastn_length {A : Type} (n : nat) (l : list A) :
  List.length (lastn n l) <= n.
Proof. unfold lastn. rewrite length_skipn. lia. Qed.

Lemma lastn_all {A : Type} (n : nat) (l : list A) :
  List.length l <= n -> lastn n l = l.
Proof.
  intros H. unfold lastn. replace (List.length l - n) with 0 by lia.
  reflexivity.
Qed.

(** Keeping the last [n] before appending loses nothing of the last [n]. *)
Lemma lastn_app_lastn {A : Type} (n : nat) (l r : list A) :
  lastn n (lastn n l ++ r) = lastn n (l ++ r).
Proof.
  destruct (Nat.le_gt_cases (List.length l) n) as [Hle|Hgt].
  - rewrite (lastn_all _ Hle). reflexivity.
  - unfold lastn. rewrite !length_app, length_skipn.
    replace (List.length l - (List.length l - n) + List.length r - n)
      with (List.length r) by lia.
    replace (List.length l + List.length r - n)
      with (List.length r + (List.length l - n)) by lia.
    rewrite <- skipn_skipn. f_equal.
    rewrite skipn_app.
    replace (List.length l - n - List.length l) with 0 by lia. reflexivity.
Qed.

Lemma deque_append_lastn (d : deque) (x : Q) :
  List.length (items d) <= maxlen d ->
  items (deque_append d x) = lastn (maxlen d) (items d ++ [x]).
Proof.
  intros H. unfold deque_append, lastn. cbn [items].
  rewrite length_app. cbn [List.length].
  destruct (maxlen d <? List.length (items d) + 1) eqn:E.
  - apply Nat.ltb_lt in E.
    replace (List.length (items d) + 1 - maxlen d) with 1 by lia.
    destruct (items d ++ [x]); reflexivity.
  - apply Nat.ltb_ge in E.
    replace (List.length (items d) + 1 - maxlen d) with 0 by lia.
    reflexivity.
Qed.

(** A deque that holds the last [maxlen] of a log still does after the log
    and the deque are appended to. *)
Lemma deque_append_log (d : deque) (log : list Q) (x : Q) :
  items d = lastn (maxlen d) log ->
  items (deque_append d x) = lastn (maxlen d) (log ++ [x]).
Proof.
  intros H. rewrite deque_append_lastn by (rewrite H; apply lastn_length).
  rewrite H. apply lastn_app_lastn.
Qed.

Lemma accepted_cons (side_left : bool) (e : event) (events : list event) :
  accepted side_left (e :: events) =
  accepted_of side_left e ++ accepted side_left events.
Proof. reflexivity. Qed.

(** One step on the two moving windows. *)
Lemma step_windows (self : MyApp) (e : event) (log_l log_r : list Q) :
  maxlen (stress_values_left self) = 15 ->
  maxlen (stress_values_right self) = 15 ->
  items (stress_values_left self) = lastn 15 log_l ->
  items (stress_values_right self) = lastn 15 log_r ->
  maxlen (stress_values_left (step self e)) = 15 /\
  maxlen (stress_values_right (step self e)) = 15 /\
  items (stress_values_left (step self e)) =
    lastn 15 (log_l ++ accepted_of true e) /\
  items (stress_values_right (step self e)) =
    lastn 15 (log_r ++ accepted_of false e).
Proof.
  intros M1 M2 I1 I2.
  pose proof (@deque_append_log (stress_values_left self) log_l) as A1.
  pose proof (@deque_append_log (stress_values_right self) log_r) as A2.
  rewrite M1 in A1. rewrite M2 in A2.
  destruct e as [channel stress attention signal_quality|];
    [|cbn; rewrite !app_nil_r; auto].
  unfold step, handle_new_data, accepted_of.
  destruct (String.eqb channel "left"), (signal_quality =? 0)%Z;
    cbn [stress_values_left stress_values_right Bool.eqb andb];
    rewrite ?app_nil_r; cbn [maxlen deque_append]; auto.
Qed.

Lemma run_windows (events : list event) (self : MyApp)
    (log_l log_r : list Q) :
  maxlen (stress_values_left self) = 15 ->
  maxlen (stress_values_right self) = 15 ->
  items (stress_values_left self) = lastn 15 log_l ->
  items (stress_values_right self) = lastn 15 log_r ->
  items (stress_values_left (run self events)) =
    lastn 15 (log_l ++ accepted true events) /\
  items (stress_values_right (run self events)) =
    lastn 15 (log_r ++ accepted false events).
Proof.
  revert self log_l log_r.
  induction events as [|e events IH]; intros self log_l log_r M1 M2 I1 I2.
  - cbn. rewrite !app_nil_r. auto.
  - destruct (@step_windows self e log_l log_r M1 M2 I1 I2)
      as (M1' & M2' & I1' & I2').
    rewrite !accepted_cons, !app_assoc.
    apply (IH (step self e) _ _ M1' M2' I1' I2').
Qed.

Lemma batch_means_cons (batch : list Q) (closed : list (list Q)) :
  batch_means (batch :: closed) =
  match batch with [] => [] | _ => [mean batch] end ++ batch_means closed.
Proof. reflexivity. Qed.

(** One channel's half of [update_interval] against a log of the means. *)
Lemma update_interval_channel_log (d : deque) (buffer log : list Q) :
  maxlen d = 5 -> items d = lastn 5 log ->
  maxlen (fst (update_interval_channel d buffer)) = 5 /\
  items (fst (update_interval_channel d buffer)) =
    lastn 5 (log ++ match buffer with [] => [] | _ => [mean buffer] end).
Proof.
  intros M I. destruct buffer as [|x buffer].
  - cbn. rewrite app_nil_r. auto.
  - split; [exact M|].
    change (fst (update_interval_channel d (x :: buffer)))
      with (deque_append d (mean (x :: buffer))).
    rewrite <- M. apply deque_append_log. rewrite M. exact I.
Qed.

Lemma run_intervals (events : list event) (self : MyApp)
    (log_l log_r : list Q) :
  maxlen (interval_stress_left self) = 5 ->
  maxlen (interval_stress_right self) = 5 ->
  items (interval_stress_left self) = lastn 5 log_l ->
  items (interval_stress_right self) = lastn 5 log_r ->
  let bl := batches true events (interval_stress_buffer_left self) in
  let br := batches false events (interval_stress_buffer_right self) in
  interval_stress_buffer_left (run self events) = snd bl /\
  interval_stress_buffer_right (run self events) = snd br /\
  items (interval_stress_left (run self events)) =
    lastn 5 (log_l ++ batch_means (fst bl)) /\
  items (interval_stress_right (run self events)) =
    lastn 5 (log_r ++ batch_means (fst br)).
Proof.
  revert self log_l log_r.
  induction events as [|e events IH]; intros self log_l log_r M1 M2 I1 I2.
  - cbn. rewrite !app_nil_r. auto.
  - destruct e as [channel stress attention signal_quality|].
    + cbv zeta. cbn [batches run fold_left].
      assert (Hstep :
        interval_stress_left (step self
          (NewData channel stress attention signal_quality))
          = interval_stress_left self /\
        interval_stress_right (step self
          (NewData channel stress attention signal_quality))
          = interval_stress_right self /\
        interval_stress_buffer_left (step self
          (NewData channel stress attention signal_quality))
          = interval_stress_buffer_left self
              ++ accepted_of true
                   (NewData channel stress attention signal_quality) /\
        interval_stress_buffer_right (step self
          (NewData channel stress attention signal_quality))
          = interval_stress_buffer_right self
              ++ accepted_of false
                   (NewData channel stress attention signal_quality)).
      { unfold step, handle_new_data, accepted_of.
        destruct (String.eqb channel "left"), (signal_quality =? 0)%Z;
          cbn; rewrite ?app_nil_r; auto. }
      destruct Hstep as (H1 & H2 & H3 & H4).
      specialize (IH (step self
        (NewData channel stress attention signal_quality)) log_l log_r).
      rewrite H1, H2, H3, H4 in IH. apply IH; assumption.
    + cbv zeta. cbn [batches run fold_left fst snd].
      destruct (@update_interval_channel_log (interval_stress_left self)
                  (interval_stress_buffer_left self) log_l M1 I1)
        as [M1' I1'].
      destruct (@update_interval_channel_log (interval_stress_right self)
                  (interval_stress_buffer_right self) log_r M2 I2)
        as [M2' I2'].
      pose proof (IH (step self IntervalTimeout) _ _ M1' M2' I1' I2') as IH'.
      cbv zeta in IH'.
      assert (B1 : interval_stress_buffer_left (step self IntervalTimeout)
                   = []) by apply update_interval_channel_snd.
      assert (B2 : interval_stress_buffer_right (step self IntervalTimeout)
                   = []) by apply update_interval_channel_snd.
      rewrite B1, B2 in IH'.
      rewrite !batch_means_cons, !app_assoc. exact IH'.
Qed.

(** X7. What the moving windows hold.  After any sequence of samples and
    interval timeouts from the freshly created application, each channel's
    moving window is exactly the 15 most recent stress values accepted on
    that channel (all of them while there are fewer), oldest first; samples
    of poor quality, samples of the other channel and timeouts leave no
    trace in it. *)
Theorem window_holds_last_15 (events : list event) :
  items (stress_values_left (run MyApp_init events)) =
    lastn 15 (accepted true events) /\
  items (stress_values_right (run MyApp_init events)) =
    lastn 15 (accepted false events).
Proof.
  apply (@run_windows events MyApp_init [] []); reflexivity.
Qed.

(** X8. What the interval buffers and histories hold.  Cut each channel's
    accepted stress values at the interval timeouts.  After any sequence of
    events from the freshly created application, the channel's interval
    buffer is the batch accepted since the last timeout, and its interval
    history is the means of the 5 most recent non-empty batches that a timeout
    closed, oldest first: a timeout with nothing accepted since the previous
    one adds no entry. *)
Theorem history_holds_last_5_means (events : list event) :
  interval_stress_buffer_left (run MyApp_init events) =
    snd (batches true events []) /\
  interval_stress_buffer_right (run MyApp_init events) =
    snd (batches false events []) /\
  items (interval_stress_left (run MyApp_init events)) =
    lastn 5 (batch_means (fst (batches true events []))) /\
  items (interval_stress_right (run MyApp_init events)) =
    lastn 5 (batch_means (fst (batches false events []))).
Proof.
  apply (@run_intervals events MyApp_init [] []); reflexivity.
Qed.

(* ===================================================================== *)
(** * The mean *)
(* ===================================================================== *)

Lemma len_cons (v : Q) (values : list Q) :
  (len (v :: values) == len values + 1)%Q.
Proof.
  unfold len. cbn [List.length].
  rewrite Nat2Z.inj_succ, <- Z.add_1_r, inject_Z_plus. reflexivity.
Qed.

Lemma len_positive (values : list Q) : values <> [] -> (0 < len values)%Q.
Proof.
  destruct values as [|v values]; [congruence|]. intros _.
  unfold len. change 0%Q with (inject_Z 0). rewrite <- Zlt_Qlt.
  cbn [List.length]. lia.
Qed.

Lemma fold_Qplus_lower (lo : Q) (values : list Q) (a : Q) :
  Forall (fun v => (lo <= v)%Q) values ->
  (a + lo * len values <= fold_left Qplus values a)%Q.
Proof.
  intros H. revert a. induction H as [|v values Hv _ IH]; intros a.
  - unfold len. cbn [List.length Z.of_nat fold_left].
    change (inject_Z 0) with 0%Q. lra.
  - cbn [fold_left]. specialize (IH (a + v)%Q). rewrite len_cons. lra.
Qed.

Lemma fold_Qplus_upper (hi : Q) (values : list Q) (a : Q) :
  Forall (fun v => (v <= hi)%Q) values ->
  (fold_left Qplus values a <= a + hi * len values)%Q.
Proof.
  intros H. revert a. induction H as [|v values Hv _ IH]; intros a.
  - unfold len. cbn [List.length Z.of_nat fold_left].
    change (inject_Z 0) with 0%Q. lra.
  - cbn [fold_left]. specialize (IH (a + v)%Q). rewrite len_cons. lra.
Qed.

Lemma mean_lower (lo : Q) (values : list Q) :
  values <> [] -> Forall (fun v => (lo <= v)%Q) values ->
  (lo <= mean values)%Q.
Proof.
  intros Hne H. unfold mean, sum.
  apply Qle_shift_div_l; [apply len_positive, Hne|].
  pose proof (fold_Qplus_lower 0 H). lra.
Qed.

Lemma mean_upper (hi : Q) (values : list Q) :
  values <> [] -> Forall (fun v => (v <= hi)%Q) values ->
  (mean values <= hi)%Q.
Proof.
  intros Hne H. unfold mean, sum.
  apply Qle_shift_div_r; [apply len_positive, Hne|].
  pose proof (fold_Qplus_upper 0 H). lra.
Qed.

Lemma mean_upper_strict (hi : Q) (values : list Q) :
  values <> [] -> Forall (fun v => (v < hi)%Q) values ->
  (mean values < hi)%Q.
Proof.
  intros Hne H. unfold mean, sum.
  apply Qlt_shift_div_r; [apply len_positive, Hne|].
  destruct H as [|v values Hv H]; [congruence|].
  cbn [fold_left].
  assert (H' : Forall (fun v => (v <= hi)%Q) values)
    by (eapply Forall_impl; [|exact H]; intros; apply Qlt_le_weak; assumption).
  pose proof (fold_Qplus_upper (0 + v) H'). rewrite len_cons. lra.
Qed.

(** Values on the same side of a threshold have their mean on that side. *)
Lemma mean_threshold (t v0 : Q) (values : list Q) :
  values <> [] -> Forall (fun v => Qltb v t = Qltb v0 t) values ->
  Qltb (mean values) t = Qltb v0 t.
Proof.
  intros Hne H. destruct (Qltb v0 t).
  - apply Qltb_lt, mean_upper_strict; [exact Hne|].
    eapply Forall_impl; [|exact H]. intros v Hv. apply Qltb_lt, Hv.
  - apply Qltb_ge, mean_lower; [exact Hne|].
    eapply Forall_impl; [|exact H]. intros v Hv. apply Qltb_ge, Hv.
Qed.

(** The category fixes the outcome of each threshold test. *)
Lemma category_tests (v w : Q) :
  categorize_stress_5 (Some v) = categorize_stress_5 (Some w) ->
  Qltb v 20 = Qltb w 20 /\ Qltb v 40 = Qltb w 40 /\
  Qltb v 60 = Qltb w 60 /\ Qltb v 80 = Qltb w 80.
Proof.
  unfold categorize_stress_5. intros H.
  destruct (Qltb v 20) eqn:V1; [apply Qltb_lt in V1 | apply Qltb_ge in V1];
  destruct (Qltb v 40) eqn:V2; [apply Qltb_lt in V2 | apply Qltb_ge in V2 | |];
  destruct (Qltb v 60) eqn:V3;
  destruct (Qltb v 80) eqn:V4;
  destruct (Qltb w 20) eqn:W1;
  destruct (Qltb w 40) eqn:W2;
  destruct (Qltb w 60) eqn:W3;
  destruct (Qltb w 80) eqn:W4;
  try discriminate H; repeat split; try reflexivity; exfalso;
  repeat match goal with
         | E : Qltb _ _ = true |- _ => apply Qltb_lt in E
         | E : Qltb _ _ = false |- _ => apply Qltb_ge in E
         end; lra.
Qed.



(** X10. An interval of one category averages to that category.  When every
    stress value of a non-empty interval falls in the same band of
    [categorize_stress_5], the mean that [denoise_signal] computes falls in
    that band too; for an empty interval the category is "No Data". *)
Theorem same_band_mean (values : list Q) (v0 : Q)
    (Hne : values <> [])
    (Hband : Forall (fun v => categorize_stress_5 (Some v) =
                              categorize_stress_5 (Some v0)) values) :
  categorize_stress_5 (denoise_signal values) = categorize_stress_5 (Some v0)
  /\ categorize_stress_5 (denoise_signal []) = "No Data"%string.
Proof.
  split; [|reflexivity].
  replace (denoise_signal values) with (Some (mean values))
    by (destruct values; [congruence | reflexivity]).
  assert (H20 : Qltb (mean values) 20 = Qltb v0 20).
  { apply mean_threshold; [exact Hne|]. eapply Forall_impl; [|exact Hband].
    intros v Hv. apply (category_tests _ _ Hv). }
  assert (H40 : Qltb (mean values) 40 = Qltb v0 40).
  { apply mean_threshold; [exact Hne|]. eapply Forall_impl; [|exact Hband].
    intros v Hv. apply (category_tests _ _ Hv). }
  assert (H60 : Qltb (mean values) 60 = Qltb v0 60).
  { apply mean_threshold; [exact Hne|]. eapply Forall_impl; [|exact Hband].
    intros v Hv. apply (category_tests _ _ Hv). }
  assert (H80 : Qltb (mean values) 80 = Qltb v0 80).
  { apply mean_threshold; [exact Hne|]. eapply Forall_impl; [|exact Hband].
    intros v Hv. apply (category_tests _ _ Hv). }
  unfold categorize_stress_5. rewrite H20, H40, H60, H80. reflexivity.
Qed.

(** X10 on the "High" values 61, 70 and 79. *)
Lemma same_band_mean_witness :
  categorize_stress_5 (denoise_signal [61; 70; 79]%Q) = "High"%string.
Proof.
  assert (Hne : [61%Q; 70%Q; 79%Q] <> []) by discriminate.
  assert (Hband : Forall (fun v => categorize_stress_5 (Some v) =
                                   categorize_stress_5 (Some 61%Q))
                    [61%Q; 70%Q; 79%Q])
    by (repeat constructor).
  apply (proj1 (@same_band_mean [61%Q; 70%Q; 79%Q] 61%Q Hne Hband)).
Defined.

(** X11. The two channels do not share aggregation state.  A sample of the
    channel "left" changes no field of the right channel, a sample of any
    other channel changes no field of the left channel, and handling one of
    each gives the same application in either order. *)
Theorem samples_of_channels_independent (self : MyApp) (channel : string)
    (stress_l attention_l stress_r attention_r : Q) (quality_l quality_r : Z)
    (Hother : channel <> "left"%string) :
  let l := handle_new_data self "left" stress_l attention_l quality_l in
  let r := handle_new_data self channel stress_r attention_r quality_r in
  (stress_values_right l = stress_values_right self /\
   interval_stress_buffer_right l = interval_stress_buffer_right self /\
   interval_stress_right l = interval_stress_right self /\
   signal_quality_label_right l = signal_quality_label_right self) /\
  (stress_values_left r = stress_values_left self /\
   interval_stress_buffer_left r = interval_stress_buffer_left self /\
   interval_stress_left r = interval_stress_left self /\
   signal_quality_label_left r = signal_quality_label_left self) /\
  handle_new_data l channel stress_r attention_r quality_r =
    handle_new_data r "left" stress_l attention_l quality_l.
Proof.
  apply String.eqb_neq in Hother.
  cbv zeta. unfold handle_new_data. rewrite Hother.
  change (String.eqb "left" "left") with true. cbv iota.
  destruct (quality_l =? 0)%Z, (quality_r =? 0)%Z; cbn; repeat split.
Qed.

(** X11 on a good left sample and a poor right sample. *)
Lemma samples_of_channels_independent_witness :
  handle_new_data (handle_new_data MyApp_init "left" 70 10 0) "right" 30 5 60
  = handle_new_data (handle_new_data MyApp_init "right" 30 5 60) "left" 70 10 0.
Proof.
  assert (Hother : "right"%string <> "left"%string) by discriminate.
  apply (proj2 (proj2 (@samples_of_channels_independent MyApp_init "right"
                         70 10 30 5 0 60 Hother))).
Defined.

Lemma run_app (self : MyApp) (events events' : list event) :
  run self (events ++ events') = run (run self events) events'.
Proof. apply fold_left_app. Qed.

Lemma run_left_label_kept (events : list event) (self : MyApp) :
  forallb (fun e => negb (is_left_sample e)) events = true ->
  signal_quality_label_left (run self events) = signal_quality_label_left self.
Proof.
  revert self. induction events as [|e events IH]; intros self H;
    [reflexivity|].
  cbn [forallb] in H. apply andb_prop in H as [He H].
  change (run self (e :: events)) with (run (step self e) events).
  rewrite (IH _ H). destruct e as [channel stress attention quality|];
    [|reflexivity].
  cbn [is_left_sample] in He. apply negb_true_iff in He.
  unfold step, handle_new_data. rewrite He.
  destruct (quality =? 0)%Z; reflexivity.
Qed.

(** X12. The left signal-quality label shows the most recent left sample.
    Whatever happened before, once a sample of the channel "left" with signal
    quality [q] has been handled and no later left sample has, the label is
    the one [update_signal_quality] writes for [q], which does not depend on
    what the label showed before; while no left sample has arrived it still
    reads "Left Signal Quality: Unknown". *)
Theorem left_label_shows_latest (self : MyApp) (before after : list event)
    (stress attention : Q) (q : Z) (previous : QLabel)
    (Hafter : forallb (fun e => negb (is_left_sample e)) after = true) :
  signal_quality_label_left
    (run self (before ++ NewData "left" stress attention q :: after)) =
    update_signal_quality previous q "Left" /\
  signal_quality_label_left (run MyApp_init after) =
    {| text := "Left Signal Quality: Unknown";
       styleSheet := "font-size: 18px; color: black; margin: 10px;" |}.
Proof.
  split; [|rewrite (run_left_label_kept _ _ Hafter); reflexivity].
  rewrite run_app.
  change (run (run self before) (NewData "left" stress attention q :: after))
    with (run (step (run self before) (NewData "left" stress attention q))
            after).
  rewrite (run_left_label_kept _ _ Hafter).
  unfold step, handle_new_data, update_signal_quality.
  change (String.eqb "left" "left") with true. cbv iota.
  destruct (q =? 0)%Z; [reflexivity|].
  destruct ((1 <=? q) && (q <=? 50))%Z; reflexivity.
Qed.

(** X12 on a poor left sample followed by a right sample and a timeout. *)
Lemma left_label_shows_latest_witness :
  text (signal_quality_label_left
          (run MyApp_init
             ([NewData "left" 50 5 0]
                ++ NewData "left" 70 10 33
                     :: [NewData "right" 20 5 0; IntervalTimeout]))) =
  "Left Signal Quality: Poor (33)"%string.
Proof.
  rewrite (proj1 (@left_label_shows_latest MyApp_init [NewData "left" 50 5 0]
                    [NewData "right" 20 5 0; IntervalTimeout] 70 10 33
                    (setup_signal_label "Left") eq_refl)).
  reflexivity.
Defined.

(* ===================================================================== *)
(** * The interval chart and the summary text *)
(* ===================================================================== *)

Lemma pad_front_step (values : list Q) :
  pad_front values =
  if List.length values <? 5 then pad_front (0%Q :: values) else values.
Proof.
  funelim (pad_front values).
  - rewrite Hshort. reflexivity.
  - rewrite e. reflexivity.
Qed.

Lemma pad_front_repeat (values : list Q) :
  pad_front values = repeat 0%Q (5 - List.length values) ++ values.
Proof.
  remember (5 - List.length values) as k eqn:Hk. revert values Hk.
  induction k as [|k IH]; intros values Hk; rewrite pad_front_step.
  - replace (List.length values <? 5) with false; [reflexivity|].
    symmetry. apply Nat.ltb_ge. lia.
  - replace (List.length values <? 5) with true
      by (symmetry; apply Nat.ltb_lt; lia).
    rewrite (IH (0%Q :: values)) by (cbn [List.length]; lia).
    change (repeat 0%Q (S k)) with (0%Q :: repeat 0%Q k).
    rewrite repeat_cons, <- app_assoc. reflexivity.
Qed.

Lemma bars_padded (d : deque) :
  bars d =
  repeat (0%Q, "Very Low"%string) (5 - List.length (items d))
    ++ map (fun height => (height, categorize_stress_5 (Some height)))
         (items d).
Proof.
  unfold bars. rewrite pad_front_repeat, map_app, map_repeat. reflexivity.
Qed.

(** X13. The interval chart always has five bars per channel.  After any
    sequence of events from the freshly created application,
    [update_interval_plot] draws, for each channel, the interval history at
    the right end, each bar under the category of its height, and fills the
    positions before it with bars of height 0; a position without an
    interval is thus labelled "Very Low", not "No Data". *)
Theorem chart_has_five_bars (events : list event) :
  let self := run MyApp_init events in
  let chart := update_interval_plot self in
  List.length (fst chart) = 5 /\ List.length (snd chart) = 5 /\
  fst chart =
    repeat (0%Q, "Very Low"%string)
      (5 - List.length (items (interval_stress_left self)))
    ++ map (fun height => (height, categorize_stress_5 (Some height)))
         (items (interval_stress_left self)) /\
  snd chart =
    repeat (0%Q, "Very Low"%string)
      (5 - List.length (items (interval_stress_right self)))
    ++ map (fun height => (height, categorize_stress_5 (Some height)))
         (items (interval_stress_right self)).
Proof.
  cbv zeta.
  destruct (run_capacity events MyApp_init_capacity)
    as [_ (_ & _ & L3 & L4)].
  unfold update_interval_plot. cbn [fst snd]. rewrite !bars_padded.
  rewrite !length_app, !repeat_length, !length_map.
  repeat split; lia.
Qed.

Lemma deque_append_latest (d : deque) (x : Q) :
  0 < maxlen d -> latest (deque_append d x) = x.
Proof.
  intros H. unfold latest, deque_append. cbn [items].
  destruct (maxlen d <? List.length (items d ++ [x])) eqn:E;
    [|apply last_last].
  destruct (items d) as [|a l]; [|cbn [app tl]; apply last_last].
  apply Nat.ltb_lt in E. cbn in E. lia.
Qed.

Lemma accepted_nil_cons (side_left : bool) (e : event) (events : list event) :
  accepted side_left (e :: events) = [] ->
  accepted_of side_left e = [] /\ accepted side_left events = [].
Proof. rewrite accepted_cons. apply app_eq_nil. Qed.

Section SummaryFacts.

Variable format_2f : Q -> string.

(** While one channel has an empty interval buffer and an empty interval
    history and accepts nothing, the text box keeps its paragraphs. *)
Lemma ui_run_left_silent (events : list event) (self : MyApp)
    (text_edit : list string) :
  accepted true events = [] ->
  interval_stress_buffer_left self = [] ->
  items (interval_stress_left self) = [] ->
  snd (ui_run format_2f (self, text_edit) events) = text_edit.
Proof.
  revert self. induction events as [|e events IH]; intros self Hacc Hb Hh;
    [reflexivity|].
  apply accepted_nil_cons in Hacc as [He Hacc].
  change (ui_run format_2f (self, text_edit) (e :: events))
    with (ui_run format_2f (ui_step format_2f (self, text_edit) e) events).
  destruct e as [channel stress attention signal_quality|].
  - cbn [ui_step fst snd]. apply (IH _ Hacc).
    + unfold handle_new_data. cbn [accepted_of] in He.
      destruct (String.eqb channel "left"), (signal_quality =? 0)%Z;
        cbn in He |- *; try discriminate He; exact Hb.
    + unfold handle_new_data.
      destruct (String.eqb channel "left"), (signal_quality =? 0)%Z;
        cbn; exact Hh.
  - cbn [ui_step on_interval_timeout fst snd].
    assert (Hh' : items (interval_stress_left (snd (update_interval self)))
                  = [])
      by (unfold update_interval; cbn; rewrite Hb; exact Hh).
    unfold update_interval_summary at 1. rewrite Hh'. apply (IH _ Hacc).
    + apply update_interval_channel_snd.
    + exact Hh'.
Qed.

Lemma ui_run_right_silent (events : list event) (self : MyApp)
    (text_edit : list string) :
  accepted false events = [] ->
  interval_stress_buffer_right self = [] ->
  items (interval_stress_right self) = [] ->
  snd (ui_run format_2f (self, text_edit) events) = text_edit.
Proof.
  revert self. induction events as [|e events IH]; intros self Hacc Hb Hh;
    [reflexivity|].
  apply accepted_nil_cons in Hacc as [He Hacc].
  change (ui_run format_2f (self, text_edit) (e :: events))
    with (ui_run format_2f (ui_step format_2f (self, text_edit) e) events).
  destruct e as [channel stress attention signal_quality|].
  - cbn [ui_step fst snd]. apply (IH _ Hacc).
    + unfold handle_new_data. cbn [accepted_of] in He.
      destruct (String.eqb channel "left"), (signal_quality =? 0)%Z;
        cbn in He |- *; try discriminate He; exact Hb.
    + unfold handle_new_data.
      destruct (String.eqb channel "left"), (signal_quality =? 0)%Z;
        cbn; exact Hh.
  - cbn [ui_step on_interval_timeout fst snd].
    assert (Hh' : items (interval_stress_right (snd (update_interval self)))
                  = [])
      by (unfold update_interval; cbn; rewrite Hb; exact Hh).
    unfold update_interval_summary at 1. rewrite Hh'.
    destruct (items (interval_stress_left (snd (update_interval self))));
      apply (IH _ Hacc); try exact Hh'; apply update_interval_channel_snd.
Qed.

(** X14. The summary needs both channels.  [update_interval_summary] writes
    only when both interval histories are non-empty.  So as long as one of the
    two channels has had no sample accepted since the application started
    (it is silent, or every sample it sent had a signal quality other than
    0), no interval timeout adds a paragraph to the text box, whatever the
    other channel delivers. *)
Theorem summary_needs_both_channels (events : list event)
    (text_edit : list string)
    (Hsilent : accepted true events = [] \/ accepted false events = []) :
  snd (ui_run format_2f (MyApp_init, text_edit) events) = text_edit.
Proof.
  destruct Hsilent as [H | H].
  - apply ui_run_left_silent; [exact H | reflexivity | reflexivity].
  - apply ui_run_right_silent; [exact H | reflexivity | reflexivity].
Qed.

(** X15. The summary is written again at every timeout.  Once both interval
    histories are non-empty, an interval timeout appends the summary of the
    latest entries to the text box even when no sample arrived since the
    previous timeout: a second timeout right after a first leaves the
    application as it is and appends the same paragraph a second time. *)
Theorem summary_repeats (self : MyApp) (text_edit : list string)
    (Hleft : items (interval_stress_left (snd (update_interval self))) <> [])
    (Hright : items (interval_stress_right (snd (update_interval self)))
              <> []) :
  let first := on_interval_timeout format_2f self text_edit in
  let self' := fst (fst first) in
  let second := on_interval_timeout format_2f self' (snd first) in
  fst (fst second) = self' /\
  snd first = text_edit ++ [summary_text format_2f self'] /\
  snd second =
    text_edit ++ [summary_text format_2f self'; summary_text format_2f self'].
Proof.
  cbv zeta. unfold on_interval_timeout. cbn [fst snd].
  assert (Hidem : snd (update_interval (snd (update_interval self)))
                  = snd (update_interval self)).
  { unfold update_interval.
    cbn [fst snd interval_stress_left interval_stress_right
         interval_stress_buffer_left interval_stress_buffer_right
         stress_values_left stress_values_right signal_quality_label_left
         signal_quality_label_right].
    rewrite !update_interval_channel_snd. reflexivity. }
  rewrite Hidem. split; [reflexivity|].
  unfold update_interval_summary.
  destruct (items (interval_stress_left (snd (update_interval self))));
    [congruence|].
  destruct (items (interval_stress_right (snd (update_interval self))));
    [congruence|].
  split; [reflexivity|]. rewrite <- app_assoc. reflexivity.
Qed.

End SummaryFacts.

(** X14 on a run where only the left channel delivers good samples. *)
Lemma summary_needs_both_channels_witness :
  snd (ui_run (fun _ => "?"%string) (MyApp_init, [])
         [NewData "left" 70 10 0; NewData "right" 30 5 200; IntervalTimeout;
          NewData "left" 71 10 0; IntervalTimeout]) = [].
Proof.
  apply summary_needs_both_channels. right. reflexivity.
Defined.

(** X15 after one good sample on each channel. *)
Lemma summary_repeats_witness :
  List.length
    (snd (on_interval_timeout (fun _ => "?"%string)
            (fst (fst (on_interval_timeout (fun _ => "?"%string)
                         (run MyApp_init
                            [NewData "left" 70 10 0; NewData "right" 30 5 0])
                         [])))
            (snd (on_interval_timeout (fun _ => "?"%string)
                    (run MyApp_init
                       [NewData "left" 70 10 0; NewData "right" 30 5 0])
                    [])))) = 2.
Proof.
  assert (Hl : items (interval_stress_left (snd (update_interval
            (run MyApp_init [NewData "left" 70 10 0; NewData "right" 30 5 0]))))
          <> []) by discriminate.
  assert (Hr : items (interval_stress_right (snd (update_interval
            (run MyApp_init [NewData "left" 70 10 0; NewData "right" 30 5 0]))))
          <> []) by discriminate.
  rewrite (proj2 (proj2 (@summary_repeats (fun _ => "?"%string) _ [] Hl Hr))).
  reflexivity.
Defined.

(** X16. The summary reports the mean just computed.  On any state reached
    from the freshly created application, a timeout that finds a channel's
    interval buffer non-empty makes the mean of that buffer the latest entry
    of the channel's interval history, the entry the summary and the last bar
    show. *)
Theorem latest_is_new_mean (events : list event) :
  let self := run MyApp_init events in
  (interval_stress_buffer_left self <> [] ->
     latest (interval_stress_left (snd (update_interval self))) =
       mean (interval_stress_buffer_left self)) /\
  (interval_stress_buffer_right self <> [] ->
     latest (interval_stress_right (snd (update_interval self))) =
       mean (interval_stress_buffer_right self)).
Proof.
  cbv zeta.
  destruct (run_capacity events MyApp_init_capacity)
    as [(_ & _ & M3 & M4) _].
  unfold update_interval.
  cbn [snd interval_stress_left interval_stress_right].
  split; intros Hne; rewrite (update_interval_channel_nonempty _ Hne);
    apply deque_append_latest; lia.
Qed.

(** X16 after the good left samples 70 and 71. *)
Lemma latest_is_new_mean_witness :
  latest (interval_stress_left
            (snd (update_interval
                    (run MyApp_init
                       [NewData "left" 70 10 0; NewData "left" 71 10 0])))) =
  (141 # 2)%Q.
Proof.
  rewrite (proj1 (latest_is_new_mean
                    [NewData "left" 70 10 0; NewData "left" 71 10 0]))
    by discriminate.
  reflexivity.
Defined.

(* ===================================================================== *)
(** * The connection loop *)
(* ===================================================================== *)

Lemma statuses_app (l l' : list loop_signal) :
  statuses (l ++ l') = statuses l ++ statuses l'.
Proof. apply flat_map_app. Qed.

Lemma no_true_twice_snoc (l : list bool) (b : bool) :
  no_true_twice (l ++ [b]) = no_true_twice l && negb (last l false && b).
Proof.
  induction l as [|x l IH]; [destruct b; reflexivity|].
  destruct l as [|y l].
  - destruct x, b; reflexivity.
  - change (last (x :: y :: l) false) with (last (y :: l) false).
    change ((x :: y :: l) ++ [b]) with (x :: y :: (l ++ [b])).
    change (y :: (l ++ [b])) with ((y :: l) ++ [b]) in IH.
    destruct x, y; cbn [no_true_twice]; try exact IH; reflexivity.
Qed.

Lemma status_bar_app (message : string) (l l' : list loop_signal) :
  status_bar message (l ++ l') = status_bar (status_bar message l) l'.
Proof. apply fold_left_app. Qed.

Lemma loop_invariant_silent (device_address : string) (p p' : point)
    (trace : list loop_signal) :
  connection_open p' = connection_open p ->
  loop_invariant device_address (p, trace) ->
  match p' with
  | StartNotify _ => False
  | InnerTest | Sleep1 | StopNotify _ | Disconnect => subscribed p = true
  | _ => True
  end ->
  loop_invariant device_address (p', trace ++ []).
Proof.
  intros Hopen (I1 & I2 & I3 & I4) Hp'. rewrite app_nil_r.
  unfold loop_invariant. cbn [fst snd] in *. rewrite Hopen.
  split; [exact I1|]. split; [exact I2|]. split; [exact I3|].
  destruct p'; try exact I; try contradiction;
    destruct p as [| | |[|[|n]]| | |m| | |]; try discriminate Hp';
    try contradiction; exact I4.
Qed.

Lemma loop_invariant_closed (device_address : string) (p p' : point)
    (trace : list loop_signal) (text : string) :
  connection_open p' = false ->
  loop_invariant device_address (p, trace) ->
  loop_invariant device_address
    (p', trace ++ [loop_log_message text; connection_status false]).
Proof.
  intros Hopen (I1 & I2 & I3 & I4).
  unfold loop_invariant. cbn [fst snd] in *.
  rewrite statuses_app. cbn [statuses flat_map app].
  rewrite last_last, no_true_twice_snoc, I2, andb_false_r, Hopen.
  split; [reflexivity|]. split; [reflexivity|]. split.
  - intros message. rewrite status_bar_app.
    destruct (statuses trace); reflexivity.
  - destruct p'; try exact I; discriminate Hopen.
Qed.

Lemma loop_invariant_log (device_address : string) (p p' : point)
    (trace : list loop_signal) (text : string) :
  connection_open p' = connection_open p ->
  loop_invariant device_address (p, trace) ->
  match p' with
  | StartNotify 0 =>
      exists earlier,
        trace ++ [loop_log_message text] =
          earlier ++ firstn 2 (connected_and_subscribed device_address)
  | StartNotify 1 =>
      exists earlier,
        trace ++ [loop_log_message text] =
          earlier ++ firstn 3 (connected_and_subscribed device_address)
  | StartNotify _ => False
  | InnerTest | Sleep1 | StopNotify _ | Disconnect =>
      exists earlier,
        trace ++ [loop_log_message text] =
          earlier ++ connected_and_subscribed device_address
  | _ => True
  end ->
  loop_invariant device_address (p', trace ++ [loop_log_message text]).
Proof.
  intros Hopen (I1 & I2 & I3 & _) H4.
  unfold loop_invariant. cbn [fst snd] in *.
  rewrite statuses_app. cbn [statuses flat_map app]. rewrite app_nil_r, Hopen.
  split; [exact I1|]. split; [exact I2|]. split; [|exact H4].
  intros message. rewrite status_bar_app. apply I3.
Qed.

Lemma ble_loop_step_invariant (device_address : string) (p p' : point)
    (a : answer) (trace emitted : list loop_signal) :
  ble_loop_step device_address p a = Some (p', emitted) ->
  loop_invariant device_address (p, trace) ->
  loop_invariant device_address (p', trace ++ emitted).
Proof.
  intros Hstep Hinv.
  destruct p as [| | |k| | |k'| | |], a as [[|]| |e]; cbn in Hstep;
    try discriminate Hstep; injection Hstep as <- <-;
    try (eapply loop_invariant_closed; [reflexivity | exact Hinv]);
    try (eapply loop_invariant_silent; [ | exact Hinv | ];
         [reflexivity | exact I || reflexivity]).
  - (* connect returns *)
    destruct Hinv as (I1 & I2 & I3 & _).
    unfold loop_invariant. cbn [fst snd connection_open] in *.
    rewrite statuses_app. cbn [statuses flat_map app].
    rewrite last_last, no_true_twice_snoc, I2, I1.
    split; [reflexivity|]. split; [reflexivity|]. split.
    + intros message. rewrite status_bar_app.
      destruct (statuses trace); reflexivity.
    + exists trace. reflexivity.
  - (* start_notify returns *)
    destruct k as [|[|k]]; cbn [next_uuid uuids List.length Nat.ltb Nat.leb];
      (eapply loop_invariant_log; [ | exact Hinv | ]; [reflexivity|]);
      destruct Hinv as (_ & _ & _ & I4); cbn [fst snd] in I4 |- *;
      [| |contradiction]; destruct I4 as [earlier ->];
      exists earlier; rewrite <- app_assoc; reflexivity.
  - (* stop_notify returns *)
    destruct k' as [|[|k']]; cbn;
      (eapply loop_invariant_silent; [ | exact Hinv | ]; reflexivity).
Qed.

Lemma ble_loop_from_invariant (device_address : string)
    (answers : list answer) (st : point * list loop_signal) :
  loop_invariant device_address st ->
  loop_invariant device_address (ble_loop_from device_address st answers).
Proof.
  revert st. induction answers as [|a answers IH]; intros st Hinv;
    [exact Hinv|].
  cbn [ble_loop_from fold_left]. apply IH.
  destruct (ble_loop_step device_address (fst st) a) as [[p' emitted]|] eqn:E;
    [|exact Hinv].
  destruct st as [p trace]. eapply ble_loop_step_invariant; [exact E | exact Hinv].
Qed.

Lemma loop_invariant_start (device_address : string) :
  loop_invariant device_address (OuterTest, []).
Proof. repeat split. Qed.

(** X17. The connection status follows the connection.  Whatever the
    transport and the stop flag answer, and however far the loop has run, the
    last [connection_status] it emitted is [True] exactly while it is between
    a successful connect and the end of that connection, and it never emits
    [True] twice without a [False] in between.  So once a status has been
    handled, the status bar reads "Connected to device" during a connection
    and "Disconnected from device" otherwise, in particular while the loop
    waits to retry and after it has ended. *)
Theorem status_follows_connection (device_address : string)
    (answers : list answer) (message : string) :
  let r := ble_loop device_address answers in
  last (statuses (snd r)) false = connection_open (fst r) /\
  no_true_twice (statuses (snd r)) = true /\
  (statuses (snd r) <> [] ->
     status_bar message (snd r) =
       handle_connection_status (connection_open (fst r))) /\
  (statuses (snd r) <> [] -> fst r = Sleep5 \/ fst r = Done ->
     status_bar message (snd r) = "Disconnected from device"%string).
Proof.
  cbv zeta.
  destruct (ble_loop_from_invariant answers
              (loop_invariant_start device_address)) as (I1 & I2 & I3 & _).
  fold (ble_loop device_address answers) in I1, I2, I3.
  split; [exact I1|]. split; [exact I2|].
  assert (H : statuses (snd (ble_loop device_address answers)) <> [] ->
              status_bar message (snd (ble_loop device_address answers)) =
              handle_connection_status
                (connection_open (fst (ble_loop device_address answers)))).
  { intros Hne. rewrite I3.
    destruct (statuses (snd (ble_loop device_address answers)));
      [congruence | reflexivity]. }
  split; [exact H|].
  intros Hne [Hp | Hp]; rewrite (H Hne), Hp; reflexivity.
Qed.

(** X17 on a connection that succeeds, subscribes once and then fails. *)
Lemma status_follows_connection_witness :
  status_bar ""
    (snd (ble_loop "AA:BB"
            [is_set false; returns; returns; returns; raises "lost"])) =
  "Disconnected from device"%string.
Proof.
  apply (proj2 (proj2 (proj2 (status_follows_connection "AA:BB"
           [is_set false; returns; returns; returns; raises "lost"] "")))).
  - discriminate.
  - left. reflexivity.
Defined.

(** X18. Active means both channels subscribed.  Whenever the loop is in its
    inner wait loop or tearing the connection down, the last four signals it
    emitted before any that followed silently are, in this order: the
    "Connected to" log, [connection_status(True)], the subscription log of the
    first characteristic as the left channel and that of the second
    characteristic as the right channel. *)
Theorem active_means_subscribed (device_address : string)
    (answers : list answer)
    (Hactive : subscribed (fst (ble_loop device_address answers)) = true) :
  exists earlier : list loop_signal,
    snd (ble_loop device_address answers) =
      earlier ++ connected_and_subscribed device_address.
Proof.
  destruct (ble_loop_from_invariant answers
              (loop_invariant_start device_address)) as (_ & _ & _ & I4).
  fold (ble_loop device_address answers) in I4.
  destruct (fst (ble_loop device_address answers)); try discriminate Hactive;
    exact I4.
Qed.

(** X18 on a second connection, after a first attempt that failed. *)
Lemma active_means_subscribed_witness :
  exists earlier : list loop_signal,
    snd (ble_loop "AA:BB"
           [is_set false; returns; raises "timeout"; returns; is_set false;
            returns; returns; returns; returns; is_set false; returns]) =
      earlier ++ connected_and_subscribed "AA:BB".
Proof.
  apply active_means_subscribed. reflexivity.
Defined.

(* ===================================================================== *)
(** * From the byte stream to the aggregates *)
(* ===================================================================== *)

Lemma deque_append_in_range (d : deque) (x : Q) :
  Forall in_range (items d) -> in_range x ->
  Forall in_range (items (deque_append d x)).
Proof.
  intros Hd Hx. unfold deque_append. cbn [items].
  assert (H : Forall in_range (items d ++ [x]))
    by (apply Forall_app; split;
        [exact Hd | constructor; [exact Hx | constructor]]).
  destruct (maxlen d <? List.length (items d ++ [x])); [|exact H].
  destruct (items d ++ [x]); [constructor|].
  inversion H; assumption.
Qed.

Lemma handle_new_data_in_range (self : MyApp) (channel : string)
    (stress attention : Q) (signal_quality : Z) :
  all_in_range self -> in_range stress ->
  all_in_range (handle_new_data self channel stress attention signal_quality).
Proof.
  intros (H1 & H2 & H3 & H4 & H5 & H6) Hs.
  pose proof (deque_append_in_range _ H1 Hs).
  pose proof (deque_append_in_range _ H2 Hs).
  assert (Forall in_range (interval_stress_buffer_left self ++ [stress]))
    by (apply Forall_app; split;
        [assumption | constructor; [exact Hs | constructor]]).
  assert (Forall in_range (interval_stress_buffer_right self ++ [stress]))
    by (apply Forall_app; split;
        [assumption | constructor; [exact Hs | constructor]]).
  unfold handle_new_data, all_in_range.
  destruct (String.eqb channel "left"), (signal_quality =? 0)%Z; cbn;
    repeat split; assumption.
Qed.

Lemma update_interval_channel_in_range (d : deque) (buffer : list Q) :
  Forall in_range (items d) -> Forall in_range buffer ->
  Forall in_range (items (fst (update_interval_channel d buffer))).
Proof.
  intros Hd Hb. destruct buffer as [|x buffer]; [exact Hd|].
  change (fst (update_interval_channel d (x :: buffer)))
    with (deque_append d (mean (x :: buffer))).
  apply deque_append_in_range; [exact Hd|]. split.
  - apply mean_lower; [discriminate|].
    eapply Forall_impl; [|exact Hb]. intros v Hv. apply Hv.
  - apply mean_upper; [discriminate|].
    eapply Forall_impl; [|exact Hb]. intros v Hv. apply Hv.
Qed.

Lemma update_interval_in_range (self : MyApp) :
  all_in_range self -> all_in_range (snd (update_interval self)).
Proof.
  intros (H1 & H2 & H3 & H4 & H5 & H6).
  unfold update_interval, all_in_range.
  cbn [snd stress_values_left stress_values_right interval_stress_buffer_left
       interval_stress_buffer_right interval_stress_left
       interval_stress_right].
  rewrite !update_interval_channel_snd.
  repeat split; try assumption; try constructor;
    apply update_interval_channel_in_range; assumption.
Qed.

Lemma decoded_sample_in_range (channel : string) (s : signal) :
  decoded_sample channel s -> signal_in_range s.
Proof.
  intros (st & at_ & q & -> & Hst & _). cbn. split.
  - change (-155)%Q with (inject_Z (-155)). rewrite <- Zle_Qle. lia.
  - change 100%Q with (inject_Z 100). rewrite <- Zle_Qle. lia.
Qed.

Lemma System_step_in_range (st : System) (o : occurrence) :
  Forall signal_in_range (queued st) /\ all_in_range (gui st) ->
  Forall signal_in_range (queued (System_step st o)) /\
  all_in_range (gui (System_step st o)).
Proof.
  intros [Hq Ha]. destruct o as [channel data| |].
  - cbn [System_step queued gui]. split; [|exact Ha].
    apply Forall_app. split; [exact Hq|].
    eapply Forall_impl;
      [|apply (notification_handler_decoded (worker st) data channel)].
    intros s [Hs _]. apply (decoded_sample_in_range Hs).
  - cbn [System_step]. destruct (queued st) as [|s rest] eqn:E;
      [split; [rewrite E; constructor | exact Ha]|].
    cbn [queued gui]. inversion Hq as [|? ? Hs Hrest]; subst.
    split; [exact Hrest|].
    destruct s as [channel stress attention signal_quality|text];
      [|exact Ha].
    apply handle_new_data_in_range; assumption.
  - cbn [System_step queued gui]. split; [exact Hq|].
    apply update_interval_in_range, Ha.
Qed.

Lemma System_run_in_range (occurrences : list occurrence) (st : System) :
  Forall signal_in_range (queued st) /\ all_in_range (gui st) ->
  Forall signal_in_range (queued (System_run st occurrences)) /\
  all_in_range (gui (System_run st occurrences)).
Proof.
  revert st. induction occurrences as [|o occurrences IH]; intros st H;
    [exact H|].
  apply IH, System_step_in_range, H.
Qed.

(** X19. Every stress value held is between -155 and 100.  Start from the
    freshly created worker and application and let notifications of any
    bytes on any channel, deliveries of the queued signals and interval
    timeouts follow one another in any order.  Then every value in either
    moving window, either interval buffer and either interval history, and
    the stress of every signal still queued, lies between -155 and 100: the
    range of [100 - byte], kept by the means. *)
Theorem stress_values_in_range (occurrences : list occurrence) :
  all_in_range (gui (System_run System_init occurrences)) /\
  Forall signal_in_range (queued (System_run System_init occurrences)).
Proof.
  destruct (@System_run_in_range occurrences System_init) as [Hq Ha].
  - split; [constructor|]. repeat split; constructor.
  - split; assumption.
Qed.
